(** * gcloud.datastore.helpers: protobuf <-> entity/key/value conversion

    A shallow embedding of [gcloud/datastore/helpers.py] and proofs about
    the conversions it implements: value and entity decoding
    ([_get_value_from_value_pb], [entity_from_protobuf]), key decoding
    ([key_from_protobuf]), value encoding ([_pb_attr_value],
    [_set_protobuf_value]), request-key preparation
    ([_prepare_key_for_request]) and dataset-id comparison
    ([_dataset_ids_equal]). *)

From Stdlib Require Import ZArith List String Ascii Bool Lia.
From stdpp Require Import base option gmap.
Import ListNotations.

Local Open Scope string_scope.
Local Open Scope list_scope.
Local Open Scope Z_scope.

(** ** Exceptions

    Every [raise] of the module aborts the enclosing call; results are
    therefore values of an error monad.  The constructors are the error
    kinds of the design document; [DateOutOfRange] is the [OverflowError]
    that [datetime] arithmetic raises when a result leaves
    [datetime.min .. datetime.max], and [NaiveDatetime] the [ValueError]
    of [astimezone] on a [datetime] without time zone. *)

Inductive error : Type :=
| InconsistentIndexing
| IntegerOverflow
| UnsupportedValueType
| MalformedValue
| InvalidKey
| DateOutOfRange
| NaiveDatetime.

Inductive result (A : Type) : Type :=
| Ok (a : A)
| Raise (e : error).

Arguments Ok {A} a.
Arguments Raise {A} e.

#[global] Instance result_ret : MRet result := fun A a => Ok a.

#[global] Instance result_bind : MBind result := fun A B k r =>
  match r with
  | Ok a => k a
  | Raise e => Raise e
  end.

(** A list comprehension whose element expression may raise: elements are
    evaluated left to right and the first exception escapes. *)
Definition mapM {A B} (f : A -> result B) : list A -> result (list B) :=
  fix go (l : list A) : result (list B) :=
    match l with
    | [] => Ok []
    | x :: l' => y ← f x; ys ← go l'; Ok (y :: ys)
    end.

(** A [for] loop over a list that threads the local variables [S] and may
    raise in its body. *)
Definition foldM {A S} (body : S -> A -> result S) : list A -> S -> result S :=
  fix go (l : list A) (s : S) : result S :=
    match l with
    | [] => Ok s
    | x :: l' => s' ← body s x; go l' s'
    end.

(** ** Scalars carried through unchanged *)

(** A Python [float] is an IEEE-754 binary64; the module never computes
    with it, so it is carried by its 64-bit pattern. *)
Definition double : Type := Z.

(** A Python byte string. *)
Definition bytes : Type := list Byte.byte.

(** ** The wire messages ([_datastore_v1_pb2])

    Optional fields are [option]s ([HasField] is [is_Some]), repeated
    fields are lists.  Presence of the [partition_id] sub-message itself is
    not represented: nothing in the module reads it. *)
Module datastore_pb.

Record PartitionId : Type := mkPartitionId {
  dataset_id : option string;
  namespace : option string
}.

Record PathElement : Type := mkPathElement {
  kind : string;
  id : option Z;
  name : option string
}.

Record Key : Type := mkKey {
  partition_id : PartitionId;
  path_element : list PathElement
}.

#[local] Unset Elimination Schemes.
Inductive Value : Type := mkValue {
  boolean_value : option bool;
  integer_value : option Z;
  double_value : option double;
  timestamp_microseconds_value : option Z;
  key_value : option Key;
  blob_key_value : option string;
  string_value : option string;
  blob_value : option bytes;
  entity_value : option Entity;
  list_value : list Value;
  meaning : option Z;
  indexed : option bool
}
with Entity : Type := mkEntity {
  key : option Key;
  property : list Property
}
with Property : Type := mkProperty {
  property_name : string;
  value : Value
}.
#[local] Set Elimination Schemes.

(** [Key()], [Value()], [Entity()]: freshly constructed messages, which
    are also what [Clear] leaves behind. *)
Definition Key_ : Key := mkKey (mkPartitionId None None) [].
Definition Value_ : Value :=
  mkValue None None None None None None None None None [] None None.
Definition Entity_ : Entity := mkEntity None [].

(** Assignment to one field of a [Value]. *)
Definition set_boolean_value (v : Value) (x : bool) : Value :=
  mkValue (Some x) (integer_value v) (double_value v)
    (timestamp_microseconds_value v) (key_value v) (blob_key_value v)
    (string_value v) (blob_value v) (entity_value v) (list_value v)
    (meaning v) (indexed v).
Definition set_integer_value (v : Value) (x : Z) : Value :=
  mkValue (boolean_value v) (Some x) (double_value v)
    (timestamp_microseconds_value v) (key_value v) (blob_key_value v)
    (string_value v) (blob_value v) (entity_value v) (list_value v)
    (meaning v) (indexed v).
Definition set_double_value (v : Value) (x : double) : Value :=
  mkValue (boolean_value v) (integer_value v) (Some x)
    (timestamp_microseconds_value v) (key_value v) (blob_key_value v)
    (string_value v) (blob_value v) (entity_value v) (list_value v)
    (meaning v) (indexed v).
Definition set_timestamp_microseconds_value (v : Value) (x : Z) : Value :=
  mkValue (boolean_value v) (integer_value v) (double_value v)
    (Some x) (key_value v) (blob_key_value v)
    (string_value v) (blob_value v) (entity_value v) (list_value v)
    (meaning v) (indexed v).
Definition set_key_value (v : Value) (x : Key) : Value :=
  mkValue (boolean_value v) (integer_value v) (double_value v)
    (timestamp_microseconds_value v) (Some x) (blob_key_value v)
    (string_value v) (blob_value v) (entity_value v) (list_value v)
    (meaning v) (indexed v).
Definition set_string_value (v : Value) (x : string) : Value :=
  mkValue (boolean_value v) (integer_value v) (double_value v)
    (timestamp_microseconds_value v) (key_value v) (blob_key_value v)
    (Some x) (blob_value v) (entity_value v) (list_value v)
    (meaning v) (indexed v).
Definition set_blob_value (v : Value) (x : bytes) : Value :=
  mkValue (boolean_value v) (integer_value v) (double_value v)
    (timestamp_microseconds_value v) (key_value v) (blob_key_value v)
    (string_value v) (Some x) (entity_value v) (list_value v)
    (meaning v) (indexed v).
Definition set_entity_value (v : Value) (x : Entity) : Value :=
  mkValue (boolean_value v) (integer_value v) (double_value v)
    (timestamp_microseconds_value v) (key_value v) (blob_key_value v)
    (string_value v) (blob_value v) (Some x) (list_value v)
    (meaning v) (indexed v).
Definition set_list_value (v : Value) (x : list Value) : Value :=
  mkValue (boolean_value v) (integer_value v) (double_value v)
    (timestamp_microseconds_value v) (key_value v) (blob_key_value v)
    (string_value v) (blob_value v) (entity_value v) x
    (meaning v) (indexed v).
Definition set_indexed (v : Value) (x : bool) : Value :=
  mkValue (boolean_value v) (integer_value v) (double_value v)
    (timestamp_microseconds_value v) (key_value v) (blob_key_value v)
    (string_value v) (blob_value v) (entity_value v) (list_value v)
    (meaning v) (Some x).

(** Modelled from the spec: the generated message classes
    ([_datastore_v1_pb2]) are not among the sources.  Reading
    [value_pb.indexed] when the field was never written yields the
    declared default; a value is indexed unless it has been excluded, so
    the default is [true]. *)
Definition get_indexed (v : Value) : bool := default true (indexed v).

(** Reading a sub-message field that is not set yields an empty one. *)
Definition get_key (e : Entity) : Key := default Key_ (key e).

End datastore_pb.

(** ** The in-memory model *)

(** *** [datetime.datetime]

    A [datetime] is a wall-clock reading with microsecond resolution plus
    an optional time zone.  The reading is kept as the number of
    microseconds between 1970-01-01T00:00:00 and the reading, both taken
    on the same (zone-less) calendar; [ymd2ord] below gives the calendar
    fields their meaning.  A time zone is represented by its offset from
    UTC in microseconds. *)
Module datetime.

Record tzinfo : Type := mktz { utcoffset : Z }.

Record datetime : Type := mkdatetime {
  wall : Z;
  tz : option tzinfo
}.

(** [datetime.min] and [datetime.max] (0001-01-01T00:00:00 and
    9999-12-31T23:59:59.999999) on the microsecond scale. *)
Definition MIN : Z := -62135596800000000.
Definition MAX : Z := 253402300799999999.

Definition in_range (us : Z) : bool := (MIN <=? us) && (us <=? MAX).

Definition valid (dt : datetime) : Prop := MIN <= wall dt <= MAX.

(** Proleptic Gregorian day number of a calendar date, as in
    [datetime.date.toordinal] (0001-01-01 is day 1). *)
Definition is_leap (y : Z) : bool :=
  (y mod 4 =? 0) && (negb (y mod 100 =? 0) || (y mod 400 =? 0)).

Definition days_before_year (y : Z) : Z :=
  let y1 := y - 1 in y1 * 365 + y1 / 4 - y1 / 100 + y1 / 400.

Definition days_before_month (y m : Z) : Z :=
  nth (Z.to_nat m) [0; 0; 31; 59; 90; 120; 151; 181; 212; 243; 273; 304; 334] 0
  + (if (2 <? m) && is_leap y then 1 else 0).

Definition ymd2ord (y m d : Z) : Z :=
  days_before_year y + days_before_month y m + d.

Definition EPOCH_ORD : Z := ymd2ord 1970 1 1.

(** [datetime.datetime(y, m, d, hh, mm, ss, us, tzinfo)]. *)
Definition of_fields (y m d hh mm ss us : Z) (z : option tzinfo) : datetime :=
  mkdatetime
    (((((ymd2ord y m d - EPOCH_ORD) * 24 + hh) * 60 + mm) * 60 + ss) * 1000000 + us)
    z.

(** [dt.microsecond]. *)
Definition microsecond (dt : datetime) : Z := wall dt mod 1000000.

(** [calendar.timegm(dt.timetuple())]: whole seconds between the epoch
    and the wall-clock reading, the zone being ignored. *)
Definition timegm_timetuple (dt : datetime) : Z := wall dt / 1000000.

(** [dt.replace(tzinfo=z)]: same reading, other zone. *)
Definition replace_tzinfo (dt : datetime) (z : option tzinfo) : datetime :=
  mkdatetime (wall dt) z.

(** [dt.astimezone(z)]: the same instant read in zone [z].
    [OverflowError] when the new reading is no [datetime]. *)
Definition astimezone (dt : datetime) (z : tzinfo) : result datetime :=
  match tz dt with
  | None => Raise NaiveDatetime
  | Some z0 =>
      let w := wall dt - utcoffset z0 + utcoffset z in
      if in_range w then Ok (mkdatetime w (Some z)) else Raise DateOutOfRange
  end.

(** [datetime.datetime.utcfromtimestamp(0)]. *)
Definition utcfromtimestamp0 : datetime := mkdatetime 0 None.

(** [dt + datetime.timedelta(microseconds=us)]. *)
Definition add_microseconds (dt : datetime) (us : Z) : result datetime :=
  let w := wall dt + us in
  if in_range w then Ok (mkdatetime w (tz dt)) else Raise DateOutOfRange.

End datetime.

(** [pytz.utc]. *)
Definition pytz_utc : datetime.tzinfo := datetime.mktz 0.

(** *** [gcloud.datastore.key.Key]

    Modelled from the spec: the class is not among the sources and is an
    opaque holder here.  It keeps the positional arguments it was built
    from (the flat path) and the two keyword arguments.  A positional
    argument is a Python string or integer.  The holder validates
    nothing; what is stated below of decoded entities is stated for wire
    entities that carry a key with a path. *)
Inductive path_arg : Type :=
| PStr (s : string)
| PInt (i : Z).

Module key.

Record Key : Type := mkKey {
  flat_path : list path_arg;
  namespace : option string;
  dataset_id : option string
}.

(** Modelled from the spec: the [Key] class is not among the sources.
    A key is an ordered sequence of [(kind, identifier)] segments in
    which only the last may lack its identifier, so the flat positional
    arguments pair up from the left and an unpaired last argument is the
    kind of an incomplete final segment. *)
Fixpoint path (args : list path_arg) : list (path_arg * option path_arg) :=
  match args with
  | [] => []
  | [k] => [(k, None)]
  | k :: i :: rest => (k, Some i) :: path rest
  end.

(** Modelled from the spec: one wire path element of a segment.  The
    kind is a string; the identifier is written as the numeric id or as
    the name according to which it is. *)
Definition element_of_segment (seg : path_arg * option path_arg)
  : result datastore_pb.PathElement :=
  match seg with
  | (PStr k, None) => Ok (datastore_pb.mkPathElement k None None)
  | (PStr k, Some (PInt i)) => Ok (datastore_pb.mkPathElement k (Some i) None)
  | (PStr k, Some (PStr n)) => Ok (datastore_pb.mkPathElement k None (Some n))
  | (PInt _, _) => Raise InvalidKey
  end.

(** Modelled from the spec: [Key.to_protobuf] is not among the sources.
    The partition fields are written only if the key carries them, and
    one path element is emitted per segment, in order. *)
Definition to_protobuf (k : Key) : result datastore_pb.Key :=
  elems ← mapM element_of_segment (path (flat_path k));
  Ok (datastore_pb.mkKey
        (datastore_pb.mkPartitionId (dataset_id k) (namespace k))
        elems).

(** A flat path in which every kind is a string. *)
Definition is_kind (a : path_arg) : Prop :=
  match a with PStr _ => True | PInt _ => False end.

Definition well_formed (k : Key) : Prop :=
  Forall (fun seg => is_kind (fst seg)) (path (flat_path k)).

End key.

(** *** Values and [gcloud.datastore.entity.Entity]

    A property value is a Python object of one of the types the module
    dispatches on; [VOther] stands for an object of any other type.
    Modelled from the spec: the [Entity] class is not among the sources;
    it is a holder of an optional key, the names excluded from indexes
    and the mapping from property names to values, kept as an association
    list in insertion order. *)
#[local] Unset Elimination Schemes.
Inductive value : Type :=
| VNone
| VBool (b : bool)
| VInt (i : Z)
| VFloat (d : double)
| VDatetime (dt : datetime.datetime)
| VKey (k : key.Key)
| VText (s : string)
| VBytes (b : bytes)
| VEntity (e : Entity)
| VList (l : list value)
| VOther
with Entity : Type :=
| mkEntity (key : option key.Key) (exclude_from_indexes : list string)
           (items : list (string * value)).
#[local] Set Elimination Schemes.

(** [entity.key], [entity.exclude_from_indexes], [entity.items()]. *)
Definition entity_key (e : Entity) : option key.Key :=
  match e with mkEntity k _ _ => k end.
Definition exclude_from_indexes (e : Entity) : list string :=
  match e with mkEntity _ x _ => x end.
Definition items (e : Entity) : list (string * value) :=
  match e with mkEntity _ _ d => d end.

(** [d[k] = v] on a dictionary: an existing key keeps its position. *)
Fixpoint dict_set {V} (d : list (string * V)) (k : string) (v : V)
  : list (string * V) :=
  match d with
  | [] => [(k, v)]
  | (k', v') :: d' =>
      if String.eqb k' k then (k', v) :: d' else (k', v') :: dict_set d' k v
  end.

(** ** Decoding *)

Import datastore_pb (PartitionId, PathElement, Property).

(** [key_from_protobuf]: the flat positional arguments are collected
    element by element; the partition fields are read only when present
    and are [None] otherwise. *)
Definition key_from_protobuf (pb : datastore_pb.Key) : key.Key :=
  let path_args :=
    fold_left
      (fun (path_args : list path_arg) (element : PathElement) =>
         let path_args := path_args ++ [PStr (datastore_pb.kind element)] in
         let path_args :=
           match datastore_pb.id element with
           | Some i => path_args ++ [PInt i]
           | None => path_args
           end in
         match datastore_pb.name element with
         | Some n => path_args ++ [PStr n]
         | None => path_args
         end)
      (datastore_pb.path_element pb) [] in
  let dataset_id :=
    match datastore_pb.dataset_id (datastore_pb.partition_id pb) with
    | Some d => Some d
    | None => None
    end in
  let namespace :=
    match datastore_pb.namespace (datastore_pb.partition_id pb) with
    | Some n => Some n
    | None => None
    end in
  key.mkKey path_args namespace dataset_id.

(** [set(value_pb.indexed for value_pb in l)]: the distinct flags read
    from the elements. *)
Definition indexed_set (l : list datastore_pb.Value) : list bool :=
  nodup Bool.bool_dec (map datastore_pb.get_indexed l).

(** The body of the loop of [entity_from_protobuf] after the value of the
    property has been obtained: record the value, then decide whether the
    name is excluded from indexes. *)
Definition record_property (property_pb : Property) (val : value)
    (st : list (string * value) * list string)
  : result (list (string * value) * list string) :=
  let '(entity_props, exclude_from_indexes) := st in
  let entity_props :=
    dict_set entity_props (datastore_pb.property_name property_pb) val in
  match val with
  | VList _ =>
      let indexed_values :=
        indexed_set (datastore_pb.list_value (datastore_pb.value property_pb)) in
      if negb (length indexed_values =? 1)%nat then Raise InconsistentIndexing
      else if negb (hd true indexed_values)
      then Ok (entity_props,
               exclude_from_indexes ++ [datastore_pb.property_name property_pb])
      else Ok (entity_props, exclude_from_indexes)
  | _ =>
      if negb (datastore_pb.get_indexed (datastore_pb.value property_pb))
      then Ok (entity_props,
               exclude_from_indexes ++ [datastore_pb.property_name property_pb])
      else Ok (entity_props, exclude_from_indexes)
  end.

(** [_get_value_from_value_pb], [_get_value_from_property_pb] and
    [entity_from_protobuf] call each other. *)
Fixpoint _get_value_from_value_pb (value_pb : datastore_pb.Value)
    {struct value_pb} : result value :=
  match datastore_pb.timestamp_microseconds_value value_pb with
  | Some microseconds =>
      naive ← datetime.add_microseconds datetime.utcfromtimestamp0 microseconds;
      Ok (VDatetime (datetime.replace_tzinfo naive (Some pytz_utc)))
  | None =>
  match datastore_pb.key_value value_pb with
  | Some k => Ok (VKey (key_from_protobuf k))
  | None =>
  match datastore_pb.boolean_value value_pb with
  | Some b => Ok (VBool b)
  | None =>
  match datastore_pb.double_value value_pb with
  | Some d => Ok (VFloat d)
  | None =>
  match datastore_pb.integer_value value_pb with
  | Some i => Ok (VInt i)
  | None =>
  match datastore_pb.string_value value_pb with
  | Some s => Ok (VText s)
  | None =>
  match datastore_pb.blob_value value_pb with
  | Some b => Ok (VBytes b)
  | None =>
  match datastore_pb.entity_value value_pb with
  | Some e => e' ← entity_from_protobuf e; Ok (VEntity e')
  | None =>
  match datastore_pb.list_value value_pb with
  | _ :: _ =>
      l ← mapM _get_value_from_value_pb (datastore_pb.list_value value_pb);
      Ok (VList l)
  | [] => Ok VNone
  end end end end end end end end end

with _get_value_from_property_pb (property_pb : Property)
    {struct property_pb} : result value :=
  _get_value_from_value_pb (datastore_pb.value property_pb)

with entity_from_protobuf (pb : datastore_pb.Entity)
    {struct pb} : result Entity :=
  let key := key_from_protobuf (datastore_pb.get_key pb) in
  st ← foldM
         (fun st property_pb =>
            val ← _get_value_from_property_pb property_pb;
            record_property property_pb val st)
         (datastore_pb.property pb) ([], []);
  Ok (mkEntity (Some key) (snd st) (fst st)).

(** ** Encoding *)

(** [Int64ValueChecker().CheckValue] of the protobuf runtime: the value
    must fit a signed 64-bit integer. *)
Definition INT_VALUE_CHECKER (val : Z) : result unit :=
  if (- 2 ^ 63 <=? val) && (val <=? 2 ^ 63 - 1) then Ok tt
  else Raise IntegerOverflow.

(** What [_pb_attr_value] returns: the attribute name (always the type
    name followed by [_value]) together with the value to be stored under
    it, whose type depends on the name. *)
Inductive pb_attr : Type :=
| timestamp_microseconds_value (us : Z)
| key_value (k : datastore_pb.Key)
| boolean_value (b : bool)
| double_value (d : double)
| integer_value (i : Z)
| string_value (s : string)
| blob_value (b : bytes)
| entity_value (e : Entity)
| list_value (l : list value).

(** [_pb_attr_value]: dispatch on the type of [val], in the order of the
    [isinstance] tests.  [calendar.timegm(...) * 1e6] is a product in
    double precision; for every [datetime] it is exact (see
    [timegm_product_exact]), so it is the integer product. *)
Definition _pb_attr_value (val : value) : result pb_attr :=
  match val with
  | VDatetime val =>
      let val :=
        match datetime.tz val with
        | None => datetime.replace_tzinfo val (Some pytz_utc)
        | Some _ => val
        end in
      val ← datetime.astimezone val pytz_utc;
      let value :=
        datetime.timegm_timetuple val * 1000000 + datetime.microsecond val in
      Ok (timestamp_microseconds_value value)
  | VKey val => pb ← key.to_protobuf val; Ok (key_value pb)
  | VBool val => Ok (boolean_value val)
  | VFloat val => Ok (double_value val)
  | VInt val => _ ← INT_VALUE_CHECKER val; Ok (integer_value val)
  | VText val => Ok (string_value val)
  | VBytes val => Ok (blob_value val)
  | VEntity val => Ok (entity_value val)
  | VList val => Ok (list_value val)
  | VNone | VOther => Raise UnsupportedValueType
  end.

(** [setattr(value_pb, attr, val)] for the scalar attributes. *)
Definition setattr (value_pb : datastore_pb.Value) (attr : pb_attr)
  : datastore_pb.Value :=
  match attr with
  | timestamp_microseconds_value us =>
      datastore_pb.set_timestamp_microseconds_value value_pb us
  | boolean_value b => datastore_pb.set_boolean_value value_pb b
  | double_value d => datastore_pb.set_double_value value_pb d
  | integer_value i => datastore_pb.set_integer_value value_pb i
  | string_value s => datastore_pb.set_string_value value_pb s
  | blob_value b => datastore_pb.set_blob_value value_pb b
  | key_value _ | entity_value _ | list_value _ => value_pb
  end.

(** The [entity_value] branch of [_set_protobuf_value], given the
    function [set] to use on the property values: the sub-message is
    cleared, the key attached if there is one, and one property added per
    item, in order. *)
Definition set_entity_value_with
    (set : datastore_pb.Value -> value -> result datastore_pb.Value)
    (value_pb : datastore_pb.Value) (val : Entity)
  : result datastore_pb.Value :=
  let e_pb := datastore_pb.Entity_ in
  k ← match entity_key val with
      | Some key => pb ← key.to_protobuf key; Ok (Some pb)
      | None => Ok (datastore_pb.key e_pb)
      end;
  props ← mapM (fun item : string * value =>
                  p_value ← set datastore_pb.Value_ (snd item);
                  Ok (datastore_pb.mkProperty (fst item) p_value))
               (items val);
  Ok (datastore_pb.set_entity_value value_pb
        (datastore_pb.mkEntity k (datastore_pb.property e_pb ++ props))).

(** The [list_value] branch: one element is added per item and filled in. *)
Definition set_list_value_with
    (set : datastore_pb.Value -> value -> result datastore_pb.Value)
    (value_pb : datastore_pb.Value) (val : list value)
  : result datastore_pb.Value :=
  added ← mapM (fun item => set datastore_pb.Value_ item) val;
  Ok (datastore_pb.set_list_value value_pb
        (datastore_pb.list_value value_pb ++ added)).

(** [_set_protobuf_value]: the message [value_pb] is updated in place, so
    the function maps the message before the call to the message after
    it.  The recursion follows [val]; [_set_protobuf_value_eq] below states
    the function in the shape of the source, where the branch is chosen
    from the attribute name returned by [_pb_attr_value]. *)
Fixpoint _set_protobuf_value (value_pb : datastore_pb.Value) (val : value)
    {struct val} : result datastore_pb.Value :=
  match val with
  | VNone => Ok datastore_pb.Value_
  | VEntity e => set_entity_value_with _set_protobuf_value value_pb e
  | VList l => set_list_value_with _set_protobuf_value value_pb l
  | _ =>
      attr ← _pb_attr_value val;
      match attr with
      | key_value k => Ok (datastore_pb.set_key_value value_pb k)
      | _ => Ok (setattr value_pb attr)
      end
  end.

(** [_set_protobuf_value] as the source states it: [None] clears the
    message; otherwise the branch is chosen by the attribute that
    [_pb_attr_value] returns. *)
Definition _set_protobuf_value_body (value_pb : datastore_pb.Value)
    (val : value) : result datastore_pb.Value :=
  match val with
  | VNone => Ok datastore_pb.Value_
  | _ =>
      attr ← _pb_attr_value val;
      match attr with
      | key_value k => Ok (datastore_pb.set_key_value value_pb k)
      | entity_value e => set_entity_value_with _set_protobuf_value value_pb e
      | list_value l => set_list_value_with _set_protobuf_value value_pb l
      | _ => Ok (setattr value_pb attr)
      end
  end.

(** ** Preparing keys for a request

    [_prepare_key_for_request] either hands back the very message it was
    given or allocates a new one.  Messages therefore live in a store and
    are passed by reference. *)
Module request.

Definition ref : Type := nat.
Abbreviation store := (gmap ref datastore_pb.Key).

(** [new_key_pb.partition_id.ClearField('dataset_id')]. *)
Definition clear_dataset_id (k : datastore_pb.Key) : datastore_pb.Key :=
  datastore_pb.mkKey
    (datastore_pb.mkPartitionId None
       (datastore_pb.namespace (datastore_pb.partition_id k)))
    (datastore_pb.path_element k).

(** The result is the returned reference and the store after the call;
    [None] only for a reference that is not in the store. *)
Definition _prepare_key_for_request (key_pb : ref) (σ : store)
  : option (ref * store) :=
  k ← σ !! key_pb;
  match datastore_pb.dataset_id (datastore_pb.partition_id k) with
  | Some _ =>
      let new_key_pb := fresh (dom σ) in
      let σ := <[new_key_pb := datastore_pb.Key_]> σ in
      let σ := <[new_key_pb := k]> σ in
      let σ := alter clear_dataset_id new_key_pb σ in
      Some (new_key_pb, σ)
  | None => Some (key_pb, σ)
  end.

End request.

(** ** Comparing dataset IDs *)

(** [s.startswith(p)]. *)
Definition startswith (s p : string) : bool := String.prefix p s.

(** [s[n:]]. *)
Fixpoint slice_from (n : nat) (s : string) : string :=
  match n, s with
  | O, _ => s
  | S n', String _ s' => slice_from n' s'
  | S _, EmptyString => EmptyString
  end.

Definition _dataset_ids_equal (dataset_id1 dataset_id2 : string) : bool :=
  if String.eqb dataset_id1 dataset_id2 then true
  else if startswith dataset_id1 "s~" || startswith dataset_id1 "e~"
  then String.eqb (slice_from 2 dataset_id1) dataset_id2
  else if startswith dataset_id2 "s~" || startswith dataset_id2 "e~"
  then String.eqb dataset_id1 (slice_from 2 dataset_id2)
  else false.

(** ** Vocabulary of the statements *)

(** A dataset identifier is either bare or one of the two prefixes
    followed by a bare identifier. *)
Definition prefixed (s : string) : bool :=
  startswith s "s~" || startswith s "e~".

Definition bare (s : string) : Prop := prefixed s = false.

Definition dataset_identifier (s : string) : Prop :=
  bare s \/ exists t, bare t /\ (s = String.append "s~" t \/ s = String.append "e~" t).

(** [a] is the bare form of [b]. *)
Definition bare_form_of (a b : string) : Prop :=
  bare a /\ (b = String.append "s~" a \/ b = String.append "e~" a).

Definition same_dataset (a b : string) : Prop :=
  a = b \/ bare_form_of a b \/ bare_form_of b a.

(** The signed 64-bit range. *)
Definition int64 (i : Z) : Prop := - 2 ^ 63 <= i < 2 ^ 63.

(** A number that a double-precision float holds exactly: a 53-bit
    mantissa scaled by a non-negative power of two. *)
Definition double_exact (x : Z) : Prop :=
  exists m e : Z, Z.abs m < 2 ^ 53 /\ 0 <= e /\ x = m * 2 ^ e.

(** No field of the message other than the repeated [list_value] is
    populated ([meaning] and [indexed] are not value fields). *)
Definition no_tag_set (v : datastore_pb.Value) : Prop :=
  datastore_pb.timestamp_microseconds_value v = None /\
  datastore_pb.key_value v = None /\
  datastore_pb.boolean_value v = None /\
  datastore_pb.double_value v = None /\
  datastore_pb.integer_value v = None /\
  datastore_pb.string_value v = None /\
  datastore_pb.blob_value v = None /\
  datastore_pb.entity_value v = None.

(** The identifier of a wire path element: the numeric id if present,
    else the name if present, else none; and the segment it stands for. *)
Definition identifier_of (e : PathElement) : option path_arg :=
  match datastore_pb.id e with
  | Some i => Some (PInt i)
  | None =>
      match datastore_pb.name e with
      | Some n => Some (PStr n)
      | None => None
      end
  end.

Definition segment_of (e : PathElement) : path_arg * option path_arg :=
  (PStr (datastore_pb.kind e), identifier_of e).

Definition at_most_one_identifier (e : PathElement) : Prop :=
  datastore_pb.id e = None \/ datastore_pb.name e = None.

Definition has_identifier (e : PathElement) : Prop :=
  identifier_of e <> None.

(** [P] holds of every element of the list except possibly the last. *)
Fixpoint all_but_last {A} (P : A -> Prop) (l : list A) : Prop :=
  match l with
  | [] => True
  | [_] => True
  | x :: l' => P x /\ all_but_last P l'
  end.

(** The arguments that one path element contributes. *)
Definition element_args (element : PathElement) : list path_arg :=
  PStr (datastore_pb.kind element)
  :: match datastore_pb.id element with Some i => [PInt i] | None => [] end
  ++ match datastore_pb.name element with Some n => [PStr n] | None => [] end.

(** All elements of a list value carry the same [indexed] flag. *)
Definition same_flag (l : list datastore_pb.Value) : Prop :=
  exists b, Forall (fun x => datastore_pb.get_indexed x = b) l.

(** The value of the property is decoded to a list. *)
Definition decodes_to_list (p : Property) : Prop :=
  exists l, _get_value_from_property_pb p = Ok (VList l).

(** The indexed status of a property: for a property decoded to a list,
    the flag its elements carry (read from the first one); otherwise the
    flag of the value itself. *)
Definition property_indexed (p : Property) : bool :=
  match _get_value_from_property_pb p with
  | Ok (VList _) =>
      match datastore_pb.list_value (datastore_pb.value p) with
      | x :: _ => datastore_pb.get_indexed x
      | [] => true
      end
  | _ => datastore_pb.get_indexed (datastore_pb.value p)
  end.

(** The [indexed] field was never written, in the value or in any of its
    list elements. *)
Definition indexed_unset (v : datastore_pb.Value) : Prop :=
  datastore_pb.indexed v = None /\
  Forall (fun x => datastore_pb.indexed x = None) (datastore_pb.list_value v).

(** The values on which encoding followed by decoding is the identity:
    integers of the signed 64-bit range, timestamps zoned as UTC, keys
    whose kinds are strings, entities that have such a key and exclude no
    name from indexes, non-empty lists; and, recursively, the property
    values and list elements are such values. *)
Fixpoint supported (v : value) : Prop :=
  match v with
  | VNone | VBool _ | VFloat _ | VText _ | VBytes _ => True
  | VInt i => int64 i
  | VDatetime dt => datetime.tz dt = Some pytz_utc /\ datetime.valid dt
  | VKey k => key.well_formed k
  | VEntity (mkEntity k x d) =>
      (exists k', k = Some k' /\ key.well_formed k') /\
      x = [] /\
      List.NoDup (map fst d) /\
      (fix all (d : list (string * value)) : Prop :=
         match d with
         | [] => True
         | item :: d' => supported (snd item) /\ all d'
         end) d
  | VList l =>
      l <> [] /\
      (fix all (l : list value) : Prop :=
         match l with
         | [] => True
         | x :: l' => supported x /\ all l'
         end) l
  | VOther => False
  end.

(** Encoding into a fresh message followed by decoding. *)
Definition roundtrip (v : value) : result value :=
  pb ← _set_protobuf_value datastore_pb.Value_ v;
  _get_value_from_value_pb pb.

(** A property written by the encoder from an item, whose value decodes
    back to the value of the item. *)
Definition encodes (item : string * value) (p : Property) : Prop :=
  datastore_pb.property_name p = fst item /\
  _set_protobuf_value datastore_pb.Value_ (snd item)
    = Ok (datastore_pb.value p) /\
  _get_value_from_value_pb (datastore_pb.value p) = Ok (snd item).

(** ** Adding keys to a request

    [request_field_pb] is a repeated field of key messages that the
    request owns: [add()] appends a new message to it and [CopyFrom] fills
    that message from the prepared key.  The keys to add are passed by
    reference, as for [_prepare_key_for_request]. *)
Fixpoint _add_keys_to_request (request_field_pb : list datastore_pb.Key)
    (key_pbs : list request.ref) (σ : request.store)
  : option (list datastore_pb.Key * request.store) :=
  match key_pbs with
  | [] => Some (request_field_pb, σ)
  | key_pb :: key_pbs' =>
      '(key_pb, σ) ← request._prepare_key_for_request key_pb σ;
      k ← σ !! key_pb;
      _add_keys_to_request (request_field_pb ++ [k]) key_pbs' σ
  end.

(** ** Further vocabulary *)

(** [d.get(k)] on a dictionary. *)
Fixpoint dict_get {V} (d : list (string * V)) (k : string) : option V :=
  match d with
  | [] => None
  | (k', v) :: d' => if String.eqb k' k then Some v else dict_get d' k
  end.

(** A wire key as the data model has it: every path element has at most
    one of id and name, and all but the last have one. *)
Definition conformant (pb : datastore_pb.Key) : Prop :=
  Forall at_most_one_identifier (datastore_pb.path_element pb) /\
  all_but_last has_identifier (datastore_pb.path_element pb).

(** The wall-clock reading in UTC of the instant a [datetime] denotes, a
    [datetime] without zone being read as UTC. *)
Definition utc_reading (dt : datetime.datetime) : Z :=
  match datetime.tz dt with
  | None => datetime.wall dt
  | Some z => datetime.wall dt - datetime.utcoffset z
  end.

(** What every decoded value looks like: timestamps are zoned as UTC and
    lie in the [datetime] range, entities have a key, lists have an
    element, and there is no object of a foreign type; and so for the
    property values and list elements. *)
Fixpoint decoded_shape (v : value) : Prop :=
  match v with
  | VNone | VBool _ | VInt _ | VFloat _ | VKey _ | VText _ | VBytes _ => True
  | VDatetime dt => datetime.tz dt = Some pytz_utc /\ datetime.valid dt
  | VEntity (mkEntity k x d) =>
      k <> None /\
      (fix all (d : list (string * value)) : Prop :=
         match d with
         | [] => True
         | item :: d' => decoded_shape (snd item) /\ all d'
         end) d
  | VList l =>
      l <> [] /\
      (fix all (l : list value) : Prop :=
         match l with
         | [] => True
         | x :: l' => decoded_shape x /\ all l'
         end) l
  | VOther => False
  end.

(** The values that the encoder accepts when keys are converted by
    [key.to_protobuf]: integers of the signed 64-bit range, timestamps
    whose UTC reading is a [datetime], keys whose kinds are strings, no
    object of a foreign type; and so for the property values and list
    elements. *)
Fixpoint encodable (v : value) : Prop :=
  match v with
  | VNone | VBool _ | VFloat _ | VText _ | VBytes _ => True
  | VInt i => int64 i
  | VDatetime dt => datetime.MIN <= utc_reading dt <= datetime.MAX
  | VKey k => key.well_formed k
  | VEntity (mkEntity k x d) =>
      (forall k', k = Some k' -> key.well_formed k') /\
      (fix all (d : list (string * value)) : Prop :=
         match d with
         | [] => True
         | item :: d' => encodable (snd item) /\ all d'
         end) d
  | VList l =>
      (fix all (l : list value) : Prop :=
         match l with
         | [] => True
         | x :: l' => encodable x /\ all l'
         end) l
  | VOther => False
  end.

(** The property names of every entity in the value are distinct, as in
    any Python dictionary. *)
Fixpoint distinct_names (v : value) : Prop :=
  match v with
  | VEntity (mkEntity k x d) =>
      List.NoDup (map fst d) /\
      (fix all (d : list (string * value)) : Prop :=
         match d with
         | [] => True
         | item :: d' => distinct_names (snd item) /\ all d'
         end) d
  | VList l =>
      (fix all (l : list value) : Prop :=
         match l with
         | [] => True
         | x :: l' => distinct_names x /\ all l'
         end) l
  | _ => True
  end.

(** What a value comes back as after encoding and decoding: a timestamp
    is read in UTC, no name is excluded from indexes any more, and the
    empty list becomes [None]. *)
Fixpoint normalize (v : value) : value :=
  match v with
  | VDatetime dt =>
      VDatetime (datetime.mkdatetime (utc_reading dt) (Some pytz_utc))
  | VEntity (mkEntity k x d) =>
      VEntity
        (mkEntity k []
           (map (fun item : string * value => (fst item, normalize (snd item)))
              d))
  | VList [] => VNone
  | VList l => VList (map normalize l)
  | _ => v
  end.

(** A key that has at least one path argument, string kinds and numeric
    ids of the signed 64-bit range. *)
Definition key_storable (k : key.Key) : Prop :=
  key.flat_path k <> [] /\
  key.well_formed k /\
  Forall (fun seg : path_arg * option path_arg =>
            match snd seg with
            | Some (PInt i) => int64 i
            | _ => True
            end) (key.path (key.flat_path k)).

(** Every key in the value is such a key, and every entity carries one. *)
Fixpoint keys_storable (v : value) : Prop :=
  match v with
  | VKey k => key_storable k
  | VEntity (mkEntity k x d) =>
      (exists k', k = Some k' /\ key_storable k') /\
      (fix all (d : list (string * value)) : Prop :=
         match d with
         | [] => True
         | item :: d' => keys_storable (snd item) /\ all d'
         end) d
  | VList l =>
      (fix all (l : list value) : Prop :=
         match l with
         | [] => True
         | x :: l' => keys_storable x /\ all l'
         end) l
  | _ => True
  end.

(** No key occurs in the value: it holds no [Key] and its entities are
    without key. *)
Fixpoint key_free (v : value) : Prop :=
  match v with
  | VKey _ => False
  | VEntity (mkEntity k x d) =>
      k = None /\
      (fix all (d : list (string * value)) : Prop :=
         match d with
         | [] => True
         | item :: d' => key_free (snd item) /\ all d'
         end) d
  | VList l =>
      (fix all (l : list value) : Prop :=
         match l with
         | [] => True
         | x :: l' => key_free x /\ all l'
         end) l
  | _ => True
  end.

(** What the encoder demands of the values other than keys: integers of
    the signed 64-bit range, timestamps whose UTC reading is a
    [datetime], no object of a foreign type; and so for the property
    values and list elements. *)
Fixpoint leaves_encodable (v : value) : Prop :=
  match v with
  | VInt i => int64 i
  | VDatetime dt => datetime.MIN <= utc_reading dt <= datetime.MAX
  | VEntity (mkEntity k x d) =>
      (fix all (d : list (string * value)) : Prop :=
         match d with
         | [] => True
         | item :: d' => leaves_encodable (snd item) /\ all d'
         end) d
  | VList l =>
      (fix all (l : list value) : Prop :=
         match l with
         | [] => True
         | x :: l' => leaves_encodable x /\ all l'
         end) l
  | VOther => False
  | _ => True
  end.

(** A property written by the encoder from an item, whose value decodes
    to what the value of the item comes back as. *)
Definition encodes_normalized (item : string * value) (p : Property) : Prop :=
  datastore_pb.property_name p = fst item /\
  _set_protobuf_value datastore_pb.Value_ (snd item)
    = Ok (datastore_pb.value p) /\
  _get_value_from_value_pb (datastore_pb.value p) = Ok (normalize (snd item)).

(** A wire key that has at least one path element and is conformant. *)
Definition key_pb_sound (k : datastore_pb.Key) : Prop :=
  datastore_pb.path_element k <> [] /\ conformant k.

(** Every entity of the wire message, at any depth of property values and
    list elements, carries a key, and every key, of an entity or held as
    a value, is sound. *)
Fixpoint value_pb_keyed (v : datastore_pb.Value) {struct v} : Prop :=
  match datastore_pb.key_value v with
  | Some k => key_pb_sound k
  | None => True
  end /\
  match datastore_pb.entity_value v with
  | Some e => entity_pb_keyed e
  | None => True
  end /\
  (fix all (l : list datastore_pb.Value) : Prop :=
     match l with
     | [] => True
     | x :: l' => value_pb_keyed x /\ all l'
     end) (datastore_pb.list_value v)

with entity_pb_keyed (pb : datastore_pb.Entity) {struct pb} : Prop :=
  (exists k, datastore_pb.key pb = Some k /\ key_pb_sound k) /\
  (fix all (ps : list Property) : Prop :=
     match ps with
     | [] => True
     | p :: ps' => value_pb_keyed (datastore_pb.value p) /\ all ps'
     end) (datastore_pb.property pb).

(** * Proofs *)

(** ** Dataset identifiers *)

Lemma startswith_2 (s : string) (c1 c2 : ascii) :
  startswith s (String c1 (String c2 "")) = true <->
  s = String c1 (String c2 (slice_from 2 s)).
Proof.
  unfold startswith. destruct s as [|a [|b s]]; simpl; split; try discriminate.
  - destruct (Ascii.ascii_dec c1 a); discriminate.
  - destruct (Ascii.ascii_dec c1 a) as [->|]; [|discriminate].
    destruct (Ascii.ascii_dec c2 b) as [->|]; [|discriminate]. reflexivity.
  - intros [= -> ->]. repeat (destruct (Ascii.ascii_dec _ _); [|congruence]).
    destruct s; reflexivity.
Qed.

Lemma prefixed_inv (s : string) :
  prefixed s = true ->
  s = String.append "s~" (slice_from 2 s) \/ s = String.append "e~" (slice_from 2 s).
Proof.
  unfold prefixed. intros H. apply orb_true_iff in H as [H|H];
    apply startswith_2 in H; [left|right]; exact H.
Qed.

Lemma prefixed_append (t : string) :
  prefixed (String.append "s~" t) = true /\ prefixed (String.append "e~" t) = true.
Proof.
  unfold prefixed. split; apply orb_true_iff; [left|right];
    apply startswith_2; reflexivity.
Qed.

(** C3: for every pair of dataset identifiers, the comparison answers
    true exactly when the two are textually equal or one of them is bare
    and the other is that bare string behind one of the prefixes "s~" and
    "e~". *)
Theorem dataset_ids_equal_spec (a b : string) :
  dataset_identifier a -> dataset_identifier b ->
  _dataset_ids_equal a b = true <-> same_dataset a b.
Proof.
  intros Ha Hb. unfold _dataset_ids_equal.
  destruct (String.eqb_spec a b) as [->|Hne].
  { split; [left; reflexivity | reflexivity]. }
  fold (prefixed a). fold (prefixed b).
  destruct (prefixed a) eqn:Pa.
  - split.
    + intros H. apply String.eqb_eq in H. right; right.
      destruct Ha as [Ha|(t & Ht & Hat)]; [unfold bare in Ha; congruence|].
      assert (slice_from 2 a = t) as Hs by (destruct Hat as [-> | ->]; reflexivity).
      rewrite Hs in H. subst b. split; [exact Ht | exact Hat].
    + intros [H|[[Ba _]|[Bb H]]]; [contradiction | unfold bare in Ba; congruence |].
      apply String.eqb_eq. destruct H as [-> | ->]; reflexivity.
  - destruct (prefixed b) eqn:Pb.
    + split.
      * intros H. apply String.eqb_eq in H. right; left. split; [exact Pa|].
        rewrite H. apply prefixed_inv. exact Pb.
      * intros [H|[[_ H]|[Bb _]]]; [contradiction | | unfold bare in Bb; congruence].
        apply String.eqb_eq. destruct H as [-> | ->]; reflexivity.
    + split; [discriminate|].
      intros [H|[[_ H]|[_ H]]]; [contradiction | |].
      * destruct (prefixed_append a) as [H1 H2]. destruct H as [E|E]; rewrite <- E in *; congruence.
      * destruct (prefixed_append b) as [H1 H2]. destruct H as [E|E]; rewrite <- E in *; congruence.
Qed.

(** The comparisons listed in the docstring. *)
Lemma dataset_ids_equal_examples :
  _dataset_ids_equal "s~foo" "s~foo" = true /\
  _dataset_ids_equal "e~bar" "e~bar" = true /\
  _dataset_ids_equal "s~foo" "s~bar" = false /\
  _dataset_ids_equal "s~foo" "e~foo" = false /\
  _dataset_ids_equal "foo" "foo" = true /\
  _dataset_ids_equal "foo" "s~foo" = true /\
  _dataset_ids_equal "foo" "e~foo" = true /\
  _dataset_ids_equal "foo" "bar" = false /\
  _dataset_ids_equal "foo" "s~bar" = false.
Proof. repeat split. Qed.

(** Outside the grammar of dataset identifiers the comparison is not
    symmetric: a string with two prefixes matches the string with one. *)
Lemma dataset_ids_equal_double_prefix :
  _dataset_ids_equal "s~e~foo" "e~foo" = true /\
  _dataset_ids_equal "e~foo" "s~e~foo" = false.
Proof. split; reflexivity. Qed.

Lemma dataset_ids_equal_spec_witness :
  (_dataset_ids_equal "foo" "s~foo" = true <-> same_dataset "foo" "s~foo") /\
  (_dataset_ids_equal "s~foo" "e~foo" = true <-> same_dataset "s~foo" "e~foo").
Proof.
  split.
  - apply (dataset_ids_equal_spec "foo" "s~foo").
    + left. reflexivity.
    + right. exists "foo". split; [reflexivity | left; reflexivity].
  - apply (dataset_ids_equal_spec "s~foo" "e~foo").
    + right. exists "foo". split; [reflexivity | left; reflexivity].
    + right. exists "foo". split; [reflexivity | right; reflexivity].
Defined.

(** ** Integers *)

Lemma INT_VALUE_CHECKER_spec (i : Z) :
  (int64 i -> INT_VALUE_CHECKER i = Ok tt) /\
  (~ int64 i -> INT_VALUE_CHECKER i = Raise IntegerOverflow).
Proof.
  unfold INT_VALUE_CHECKER, int64.
  destruct (- 2 ^ 63 <=? i) eqn:E1; destruct (i <=? 2 ^ 63 - 1) eqn:E2;
    simpl; split; intros H; try reflexivity; exfalso; lia.
Qed.

(** C6: an integer within the signed 64-bit range is stored under the
    integer attribute; an integer outside it (such as 2^63) makes the
    encoder raise the overflow error.  2^63 - 1 is accepted. *)
Theorem integer_encoding_bound (value_pb : datastore_pb.Value) (i : Z) :
  (int64 i ->
     _pb_attr_value (VInt i) = Ok (integer_value i) /\
     _set_protobuf_value value_pb (VInt i)
       = Ok (datastore_pb.set_integer_value value_pb i)) /\
  (~ int64 i ->
     _pb_attr_value (VInt i) = Raise IntegerOverflow /\
     _set_protobuf_value value_pb (VInt i) = Raise IntegerOverflow).
Proof.
  destruct (INT_VALUE_CHECKER_spec i) as [Hin Hout].
  split; intros H; simpl; [rewrite (Hin H) | rewrite (Hout H)];
    split; reflexivity.
Qed.

Lemma integer_encoding_bound_witness :
  _set_protobuf_value datastore_pb.Value_ (VInt (2 ^ 63 - 1))
    = Ok (datastore_pb.set_integer_value datastore_pb.Value_ (2 ^ 63 - 1)) /\
  _set_protobuf_value datastore_pb.Value_ (VInt (2 ^ 63)) = Raise IntegerOverflow.
Proof.
  split.
  - apply (proj1 (integer_encoding_bound datastore_pb.Value_ (2 ^ 63 - 1))).
    unfold int64. lia.
  - apply (proj2 (integer_encoding_bound datastore_pb.Value_ (2 ^ 63))).
    unfold int64. lia.
Defined.

(** ** Timestamps *)

Lemma in_range_valid (w : Z) :
  datetime.in_range w = true <-> datetime.MIN <= w <= datetime.MAX.
Proof. unfold datetime.in_range. rewrite andb_true_iff. lia. Qed.

(** The product [calendar.timegm(...) * 1e6] is exact in double
    precision for every [datetime]. *)
Lemma timegm_product_exact (dt : datetime.datetime) :
  datetime.valid dt -> double_exact (datetime.timegm_timetuple dt * 1000000).
Proof.
  unfold datetime.valid, datetime.MIN, datetime.MAX, datetime.timegm_timetuple.
  intros H. exists (datetime.wall dt / 1000000 * 15625), 6.
  assert (-62135596800 <= datetime.wall dt / 1000000 <= 253402300799).
  { split.
    - apply Z.div_le_lower_bound; lia.
    - assert (datetime.wall dt / 1000000 < 253402300800); [|lia].
      apply Z.div_lt_upper_bound; lia. }
  split; [lia | split; [lia|]].
  change (2 ^ 6) with 64. lia.
Qed.

Lemma encode_utc_datetime (w : Z) :
  _pb_attr_value (VDatetime (datetime.mkdatetime w (Some pytz_utc)))
  = if datetime.in_range w then Ok (timestamp_microseconds_value w)
    else Raise DateOutOfRange.
Proof.
  simpl. unfold datetime.astimezone; simpl.
  replace (w - 0 + 0) with w by lia.
  destruct (datetime.in_range w); simpl; [|reflexivity].
  unfold datetime.timegm_timetuple, datetime.microsecond; simpl.
  f_equal. f_equal. pose proof (Z.div_mod w 1000000). lia.
Qed.

(** C7: a timestamp without time zone is encoded exactly as the same
    wall-clock reading zoned as UTC, namely as the microseconds between
    the epoch and that reading under the timestamp attribute; naive
    2021-01-01T00:00:00 and 2021-01-01T00:00:00Z both give
    1609459200000000. *)
Theorem naive_timestamp_encodes_as_utc (t : datetime.datetime) :
  datetime.tz t = None ->
  (_pb_attr_value (VDatetime t)
     = _pb_attr_value (VDatetime (datetime.replace_tzinfo t (Some pytz_utc))) /\
   forall value_pb,
     _set_protobuf_value value_pb (VDatetime t)
     = _set_protobuf_value value_pb
         (VDatetime (datetime.replace_tzinfo t (Some pytz_utc)))) /\
  (datetime.valid t ->
     _pb_attr_value (VDatetime t)
       = Ok (timestamp_microseconds_value (datetime.wall t))) /\
  _pb_attr_value (VDatetime (datetime.of_fields 2021 1 1 0 0 0 0 None))
    = Ok (timestamp_microseconds_value 1609459200000000) /\
  _pb_attr_value (VDatetime (datetime.of_fields 2021 1 1 0 0 0 0 (Some pytz_utc)))
    = Ok (timestamp_microseconds_value 1609459200000000).
Proof.
  intros Hnaive.
  assert (_pb_attr_value (VDatetime t)
          = _pb_attr_value (VDatetime (datetime.replace_tzinfo t (Some pytz_utc))))
    as Heq.
  { destruct t as [w z]; simpl in Hnaive; subst z. reflexivity. }
  split; [split|split; [|split]].
  - exact Heq.
  - intros value_pb. simpl. fold (_pb_attr_value (VDatetime t)).
    rewrite Heq. reflexivity.
  - intros Hv. rewrite Heq. unfold datetime.replace_tzinfo.
    rewrite encode_utc_datetime.
    apply in_range_valid in Hv. rewrite Hv. reflexivity.
  - reflexivity.
  - reflexivity.
Qed.

Lemma naive_timestamp_encodes_as_utc_witness :
  _pb_attr_value (VDatetime (datetime.mkdatetime 1609459200000000 None))
  = _pb_attr_value (VDatetime (datetime.mkdatetime 1609459200000000 (Some pytz_utc))).
Proof.
  apply (naive_timestamp_encodes_as_utc
           (datetime.mkdatetime 1609459200000000 None)).
  reflexivity.
Defined.

(** ** Induction over wire messages *)

Section Value_pb_ind.
Variable P : datastore_pb.Value -> Prop.
Variable Q : datastore_pb.Entity -> Prop.
Hypothesis HV : forall v,
  (forall e, datastore_pb.entity_value v = Some e -> Q e) ->
  Forall P (datastore_pb.list_value v) -> P v.
Hypothesis HE : forall e,
  Forall (fun p => P (datastore_pb.value p)) (datastore_pb.property e) -> Q e.

Lemma Value_pb_ind : forall v, P v.
Proof.
  fix FV 1 with (FE (e : datastore_pb.Entity) {struct e} : Q e);
    [intros v | intros e].
  - apply HV.
    + destruct v as [? ? ? ? ? ? ? ? ev ? ? ?]; simpl.
      intros e He. destruct ev as [e'|]; [|discriminate].
      injection He as <-. apply FE.
    + destruct v as [? ? ? ? ? ? ? ? ? lv ? ?]; simpl.
      induction lv as [|x lv IH]; constructor; [apply FV | exact IH].
  - apply HE. destruct e as [k props]; simpl.
    induction props as [|p props IH]; constructor; [|exact IH].
    destruct p as [n v]; simpl. apply FV.
Qed.

Lemma Entity_pb_ind : forall e, Q e.
Proof.
  intros e. apply HE. apply List.Forall_forall. intros p _. apply Value_pb_ind.
Qed.
End Value_pb_ind.

(** ** The error monad *)

Lemma bind_Ok {A B} (r : result A) (k : A -> result B) (b : B) :
  r ≫= k = Ok b <-> exists a, r = Ok a /\ k a = Ok b.
Proof.
  destruct r as [a|e]; simpl; split.
  - intros H. exists a. split; [reflexivity | exact H].
  - intros (a' & [= <-] & H). exact H.
  - discriminate.
  - intros (a' & [=] & _).
Qed.

Lemma bind_Raise {A B} (r : result A) (k : A -> result B) (e : error) :
  r ≫= k = Raise e <-> r = Raise e \/ exists a, r = Ok a /\ k a = Raise e.
Proof.
  destruct r as [a|e']; simpl; split.
  - intros H. right. exists a. split; [reflexivity | exact H].
  - intros [[=] | (a' & [= <-] & H)]. exact H.
  - intros [= <-]. left. reflexivity.
  - intros [[= <-] | (a' & [=] & _)]. reflexivity.
Qed.

Lemma mapM_Ok {A B} (f : A -> result B) (l : list A) (r : list B) :
  mapM f l = Ok r <-> Forall2 (fun x y => f x = Ok y) l r.
Proof.
  revert r. induction l as [|x l IH]; intros r; simpl.
  - split; [intros [= <-]; constructor | intros H; inversion H; reflexivity].
  - rewrite bind_Ok. split.
    + intros (y & Hy & H). apply bind_Ok in H as (ys & Hys & [= <-]).
      constructor; [exact Hy | apply IH; exact Hys].
    + intros H. inversion H as [|? y ? ys Hy Hys]; subst.
      exists y. split; [exact Hy|]. apply IH in Hys. rewrite Hys. reflexivity.
Qed.

Lemma mapM_Raise {A B} (f : A -> result B) (l : list A) (e : error) :
  mapM f l = Raise e -> exists x, In x l /\ f x = Raise e.
Proof.
  induction l as [|x l IH]; simpl; [discriminate|].
  intros H. apply bind_Raise in H as [H | (y & _ & H)].
  - exists x. split; [left; reflexivity | exact H].
  - apply bind_Raise in H as [H | (ys & _ & [=])].
    destruct (IH H) as (x' & Hin & Hx'). exists x'. split; [right|]; assumption.
Qed.

Lemma foldM_Raise {A S} (body : S -> A -> result S) (l : list A) (s : S)
    (e : error) :
  foldM body l s = Raise e -> exists x s', In x l /\ body s' x = Raise e.
Proof.
  revert s. induction l as [|x l IH]; intros s; simpl; [discriminate|].
  intros H. apply bind_Raise in H as [H | (s' & _ & H)].
  - exists x, s. split; [left; reflexivity | exact H].
  - destruct (IH _ H) as (x' & s'' & Hin & Hx').
    exists x', s''. split; [right|]; assumption.
Qed.

(** ** Decoding of values *)

Lemma record_property_Raise property_pb val st e :
  record_property property_pb val st = Raise e -> e = InconsistentIndexing.
Proof.
  unfold record_property. destruct st as [props excl].
  destruct val; repeat (match goal with |- context [if ?c then _ else _] =>
                                          destruct c end);
    congruence.
Qed.

(** The only exceptions that decoding raises are the one for disagreeing
    list elements and the one of timestamp arithmetic. *)
Lemma decode_errors :
  forall v e, _get_value_from_value_pb v = Raise e ->
              e = InconsistentIndexing \/ e = DateOutOfRange.
Proof.
  apply (Value_pb_ind
    (fun v => forall e, _get_value_from_value_pb v = Raise e ->
                        e = InconsistentIndexing \/ e = DateOutOfRange)
    (fun pb => forall e, entity_from_protobuf pb = Raise e ->
                         e = InconsistentIndexing \/ e = DateOutOfRange)).
  - intros v IHe IHl e.
    destruct v as [bv iv dv tv kv bk sv blv ev lv m ix]; simpl in *.
    destruct tv as [us|].
    { unfold datetime.add_microseconds.
      destruct (datetime.in_range _); simpl; [discriminate|].
      intros [= <-]. right. reflexivity. }
    destruct kv; [discriminate|]. destruct bv; [discriminate|].
    destruct dv; [discriminate|]. destruct iv; [discriminate|].
    destruct sv; [discriminate|]. destruct blv; [discriminate|].
    destruct ev as [e'|].
    { intros H. apply bind_Raise in H as [H | (? & _ & [=])].
      exact (IHe e' eq_refl e H). }
    destruct lv as [|x lv]; [discriminate|].
    intros H. apply bind_Raise in H as [H | (? & _ & [=])].
    apply mapM_Raise in H as (y & Hin & Hy).
    rewrite List.Forall_forall in IHl. exact (IHl y Hin e Hy).
  - intros pb IH e. destruct pb as [k props]; simpl in *.
    intros H. apply bind_Raise in H as [H | (? & _ & [=])].
    apply foldM_Raise in H as (p & st & Hin & H).
    apply bind_Raise in H as [H | (val & _ & H)].
    + rewrite List.Forall_forall in IH. destruct p as [n v]. exact (IH _ Hin e H).
    + left. eapply record_property_Raise. exact H.
Qed.

Lemma decode_no_tag (v : datastore_pb.Value) :
  no_tag_set v ->
  _get_value_from_value_pb v
  = match datastore_pb.list_value v with
    | [] => Ok VNone
    | _ :: _ =>
        l ← mapM _get_value_from_value_pb (datastore_pb.list_value v);
        Ok (VList l)
    end.
Proof.
  destruct v as [bv iv dv tv kv bk sv blv ev lv m ix].
  unfold no_tag_set; simpl.
  intros (-> & -> & -> & -> & -> & -> & -> & ->). reflexivity.
Qed.

Lemma decode_list_inv (v : datastore_pb.Value) (l : list value) :
  _get_value_from_value_pb v = Ok (VList l) ->
  no_tag_set v /\
  datastore_pb.list_value v <> [] /\
  mapM _get_value_from_value_pb (datastore_pb.list_value v) = Ok l.
Proof.
  destruct v as [bv iv dv tv kv bk sv blv ev lv m ix].
  unfold no_tag_set; simpl.
  destruct tv.
  { unfold datetime.add_microseconds.
    destruct (datetime.in_range _); simpl; discriminate. }
  destruct kv; [discriminate|]. destruct bv; [discriminate|].
  destruct dv; [discriminate|]. destruct iv; [discriminate|].
  destruct sv; [discriminate|]. destruct blv; [discriminate|].
  destruct ev.
  { destruct (entity_from_protobuf _); simpl; discriminate. }
  destruct lv as [|x lv]; [discriminate|].
  intros H. apply bind_Ok in H as (l' & Hl' & [= <-]).
  repeat split; try reflexivity; [discriminate | exact Hl'].
Qed.

(** C10: a message with no field populated and a [list_value] without
    elements decodes to [None], not to the empty list; and whenever a
    message decodes to a list, that list has an element. *)
Theorem empty_list_decodes_to_None (v : datastore_pb.Value) :
  (no_tag_set v -> datastore_pb.list_value v = [] ->
   _get_value_from_value_pb v = Ok VNone) /\
  (forall l, _get_value_from_value_pb v = Ok (VList l) -> l <> []).
Proof.
  split.
  - intros Hno Hnil. rewrite (decode_no_tag v Hno), Hnil. reflexivity.
  - intros l H. apply decode_list_inv in H as (_ & Hne & H).
    apply mapM_Ok in H. intros ->. inversion H as [Hnil|]; subst.
    apply Hne. symmetry. exact Hnil.
Qed.

Lemma empty_list_decodes_to_None_witness :
  _get_value_from_value_pb
    (datastore_pb.set_indexed
       (datastore_pb.set_list_value datastore_pb.Value_ []) false) = Ok VNone /\
  [VInt 7] <> [].
Proof.
  split.
  - apply (proj1 (empty_list_decodes_to_None _)).
    + unfold no_tag_set. simpl. repeat split.
    + reflexivity.
  - apply (proj2 (empty_list_decodes_to_None
                    (datastore_pb.set_list_value datastore_pb.Value_
                       [datastore_pb.set_integer_value datastore_pb.Value_ 7]))).
    reflexivity.
Defined.

(** C5, as stated, fails: no wire value makes the decoder raise
    [MalformedValue].  In particular the empty message decodes to [None]
    when it is the whole value, when it is a list element and when it is
    the value of a property. *)
Lemma MalformedValue_counterexample :
  _get_value_from_value_pb datastore_pb.Value_ = Ok VNone /\
  _get_value_from_value_pb
    (datastore_pb.set_list_value datastore_pb.Value_ [datastore_pb.Value_])
    = Ok (VList [VNone]) /\
  _get_value_from_property_pb (datastore_pb.mkProperty "p" datastore_pb.Value_)
    = Ok VNone /\
  ~ exists v, _get_value_from_value_pb v = Raise MalformedValue.
Proof.
  repeat split; try reflexivity.
  intros (v & H). apply decode_errors in H as [H|H]; discriminate.
Qed.

(** C5, amended: decoding a wire value never raises [MalformedValue];
    a message with no field populated and no list element decodes to
    [None] wherever it occurs. *)
Theorem decode_never_MalformedValue (v : datastore_pb.Value) :
  _get_value_from_value_pb v <> Raise MalformedValue /\
  (no_tag_set v -> datastore_pb.list_value v = [] ->
   _get_value_from_value_pb v = Ok VNone).
Proof.
  split.
  - intros H. apply decode_errors in H as [H|H]; discriminate.
  - intros Hno Hnil. rewrite (decode_no_tag v Hno), Hnil. reflexivity.
Qed.

Lemma decode_never_MalformedValue_witness :
  _get_value_from_value_pb datastore_pb.Value_ = Ok VNone.
Proof.
  apply (proj2 (decode_never_MalformedValue datastore_pb.Value_)).
  - unfold no_tag_set. simpl. repeat split.
  - reflexivity.
Defined.

(** ** Keys *)

Lemma path_args_loop (elements : list PathElement) (acc : list path_arg) :
  fold_left
    (fun (path_args : list path_arg) (element : PathElement) =>
       let path_args := path_args ++ [PStr (datastore_pb.kind element)] in
       let path_args :=
         match datastore_pb.id element with
         | Some i => path_args ++ [PInt i]
         | None => path_args
         end in
       match datastore_pb.name element with
       | Some n => path_args ++ [PStr n]
       | None => path_args
       end)
    elements acc
  = acc ++ flat_map element_args elements.
Proof.
  revert acc. induction elements as [|e elements IH]; intros acc; simpl.
  - rewrite app_nil_r. reflexivity.
  - rewrite IH. unfold element_args.
    destruct (datastore_pb.id e), (datastore_pb.name e); simpl;
      rewrite <- ?app_assoc; reflexivity.
Qed.

Lemma key_from_protobuf_eq (pb : datastore_pb.Key) :
  key_from_protobuf pb
  = key.mkKey (flat_map element_args (datastore_pb.path_element pb))
      (datastore_pb.namespace (datastore_pb.partition_id pb))
      (datastore_pb.dataset_id (datastore_pb.partition_id pb)).
Proof.
  unfold key_from_protobuf. rewrite path_args_loop. simpl.
  destruct (datastore_pb.dataset_id _), (datastore_pb.namespace _); reflexivity.
Qed.

Lemma path_of_elements (elements : list PathElement) :
  Forall at_most_one_identifier elements ->
  all_but_last has_identifier elements ->
  key.path (flat_map element_args elements) = map segment_of elements.
Proof.
  induction elements as [|e elements IH]; [reflexivity|].
  intros Hone Hlast. inversion Hone as [|? ? He Hone']; subst.
  destruct e as [k i n]. unfold at_most_one_identifier in He. simpl in He.
  destruct elements as [|e' elements].
  - destruct He as [-> | ->]; [destruct n | destruct i]; reflexivity.
  - destruct Hlast as [Hid Hlast]. specialize (IH Hone' Hlast).
    unfold has_identifier, identifier_of in Hid. simpl in Hid.
    change (flat_map element_args (datastore_pb.mkPathElement k i n :: e' :: elements))
      with (element_args (datastore_pb.mkPathElement k i n)
            ++ flat_map element_args (e' :: elements)).
    destruct He as [-> | ->]; [destruct n | destruct i]; try congruence;
      unfold element_args; simpl app; cbn [key.path map];
      unfold segment_of at 1, identifier_of; simpl;
      (f_equal; exact IH).
Qed.

(** C9, as stated, fails: both path elements below carry at most one of
    id and name, yet the decoded path is [("A","B"); ("C",-)] and not
    [("A",-); ("B","C")].  The wire key [("A", name "B"); ("C", -)] yields
    the very same [Key], so no reading of the flat path can tell the
    two apart. *)
Lemma key_path_counterexample :
  let pb := datastore_pb.mkKey (datastore_pb.mkPartitionId None None)
              [datastore_pb.mkPathElement "A" None None;
               datastore_pb.mkPathElement "B" None (Some "C")] in
  let pb' := datastore_pb.mkKey (datastore_pb.mkPartitionId None None)
               [datastore_pb.mkPathElement "A" None (Some "B");
                datastore_pb.mkPathElement "C" None None] in
  Forall at_most_one_identifier (datastore_pb.path_element pb) /\
  key.path (key.flat_path (key_from_protobuf pb))
    = [(PStr "A", Some (PStr "B")); (PStr "C", None)] /\
  map segment_of (datastore_pb.path_element pb)
    = [(PStr "A", None); (PStr "B", Some (PStr "C"))] /\
  key.path (key.flat_path (key_from_protobuf pb))
    <> map segment_of (datastore_pb.path_element pb) /\
  key_from_protobuf pb = key_from_protobuf pb'.
Proof.
  simpl. split; [|split; [|split; [|split]]].
  - repeat constructor; unfold at_most_one_identifier; simpl; auto.
  - reflexivity.
  - reflexivity.
  - unfold segment_of, identifier_of; simpl. discriminate.
  - reflexivity.
Qed.

(** C9, amended: for every wire key in which each path element has at
    most one of id and name set and every element but the last has one of
    them, the decoded key has the partition's dataset id and namespace
    ([None] exactly when the field is absent) and its path lists, in wire
    order, one segment per element: the kind with the numeric id if
    present, else the name if present, else nothing. *)
Theorem key_from_protobuf_spec (pb : datastore_pb.Key) :
  Forall at_most_one_identifier (datastore_pb.path_element pb) ->
  all_but_last has_identifier (datastore_pb.path_element pb) ->
  key.dataset_id (key_from_protobuf pb)
    = datastore_pb.dataset_id (datastore_pb.partition_id pb) /\
  key.namespace (key_from_protobuf pb)
    = datastore_pb.namespace (datastore_pb.partition_id pb) /\
  key.path (key.flat_path (key_from_protobuf pb))
    = map segment_of (datastore_pb.path_element pb).
Proof.
  intros Hone Hlast. rewrite key_from_protobuf_eq. simpl.
  repeat split. apply path_of_elements; assumption.
Qed.

Lemma key_from_protobuf_spec_witness :
  let pb := datastore_pb.mkKey (datastore_pb.mkPartitionId (Some "s~foo") None)
              [datastore_pb.mkPathElement "Person" (Some 123) None;
               datastore_pb.mkPathElement "Address" None (Some "home")] in
  key.dataset_id (key_from_protobuf pb) = Some "s~foo" /\
  key.namespace (key_from_protobuf pb) = None /\
  key.path (key.flat_path (key_from_protobuf pb))
    = [(PStr "Person", Some (PInt 123)); (PStr "Address", Some (PStr "home"))].
Proof.
  intros pb. apply (key_from_protobuf_spec pb).
  - constructor; [right; reflexivity|].
    constructor; [left; reflexivity | constructor].
  - simpl. split; [discriminate | exact I].
Defined.

(** ** Request keys *)

(** C8: when the key carries a dataset id, the call returns a reference to
    a newly allocated message that differs from the given one in the
    dataset id only, which is cleared (namespace and path elements are
    the same), and no message already in the store is changed; when the
    key carries no dataset id, the call returns the given reference and
    leaves the store as it is. *)
Theorem prepare_key_for_request_spec
    (σ : request.store) (key_pb : request.ref) (k : datastore_pb.Key) :
  σ !! key_pb = Some k ->
  (is_Some (datastore_pb.dataset_id (datastore_pb.partition_id k)) ->
   exists new_key_pb σ' k',
     request._prepare_key_for_request key_pb σ = Some (new_key_pb, σ') /\
     σ !! new_key_pb = None /\
     σ' !! new_key_pb = Some k' /\
     datastore_pb.dataset_id (datastore_pb.partition_id k') = None /\
     datastore_pb.namespace (datastore_pb.partition_id k')
       = datastore_pb.namespace (datastore_pb.partition_id k) /\
     datastore_pb.path_element k' = datastore_pb.path_element k /\
     forall r, r <> new_key_pb -> σ' !! r = σ !! r) /\
  (datastore_pb.dataset_id (datastore_pb.partition_id k) = None ->
   request._prepare_key_for_request key_pb σ = Some (key_pb, σ)).
Proof.
  intros Hk. unfold request._prepare_key_for_request. rewrite Hk. simpl.
  split.
  - intros [d Hd]. rewrite Hd.
    eexists _, _, (request.clear_dataset_id k).
    split; [reflexivity|].
    split; [apply not_elem_of_dom, is_fresh|].
    split; [rewrite lookup_alter_eq, !lookup_insert_eq; reflexivity|].
    repeat split.
    intros r Hr. rewrite lookup_alter_ne, !lookup_insert_ne by congruence.
    reflexivity.
  - intros ->. reflexivity.
Qed.

Lemma prepare_key_for_request_spec_witness :
  let k := datastore_pb.mkKey
             (datastore_pb.mkPartitionId (Some "s~foo") (Some "ns"))
             [datastore_pb.mkPathElement "Person" (Some 123) None] in
  let k' := datastore_pb.mkKey (datastore_pb.mkPartitionId None (Some "ns"))
              [datastore_pb.mkPathElement "Person" (Some 123) None] in
  (exists new_key_pb σ' k0,
     request._prepare_key_for_request 0%nat {[ 0%nat := k ]}
       = Some (new_key_pb, σ') /\
     ({[ 0%nat := k ]} : request.store) !! new_key_pb = None /\
     σ' !! new_key_pb = Some k0 /\
     datastore_pb.dataset_id (datastore_pb.partition_id k0) = None /\
     datastore_pb.namespace (datastore_pb.partition_id k0) = Some "ns" /\
     datastore_pb.path_element k0 = datastore_pb.path_element k /\
     forall r, r <> new_key_pb ->
               σ' !! r = ({[ 0%nat := k ]} : request.store) !! r) /\
  request._prepare_key_for_request 0%nat {[ 0%nat := k' ]}
    = Some (0%nat, {[ 0%nat := k' ]}).
Proof.
  intros k k'. split.
  - apply (proj1 (prepare_key_for_request_spec {[ 0%nat := k ]} 0%nat k
                    (lookup_singleton_eq 0%nat k))).
    exists "s~foo". reflexivity.
  - apply (proj2 (prepare_key_for_request_spec {[ 0%nat := k' ]} 0%nat k'
                    (lookup_singleton_eq 0%nat k'))).
    reflexivity.
Defined.

(** ** Encoding of values *)

(** The recursive definition agrees with the statement of the function in
    the shape of the source. *)
Lemma _set_protobuf_value_eq (value_pb : datastore_pb.Value) (val : value) :
  _set_protobuf_value value_pb val = _set_protobuf_value_body value_pb val.
Proof.
  destruct val as [| b | i | d | dt | k | s | b | e | l |]; try reflexivity.
  - cbn. destruct (INT_VALUE_CHECKER i); reflexivity.
  - cbn [_set_protobuf_value _set_protobuf_value_body _pb_attr_value].
    destruct (datetime.astimezone _ pytz_utc); reflexivity.
  - cbn. destruct (key.to_protobuf k); reflexivity.
Qed.

(** ** The indexed flag on encoding *)

Ltac inv_bind :=
  repeat (match goal with
          | H : _ ≫= _ = Ok _ |- _ =>
              apply bind_Ok in H as (? & ? & H); cbv beta in H
          | H : Ok _ = Ok _ |- _ => injection H as H; subst; cbn iota in *
          end).

Lemma encode_indexed (value_pb : datastore_pb.Value) (val : value)
    (v : datastore_pb.Value) :
  _set_protobuf_value value_pb val = Ok v ->
  datastore_pb.indexed v
  = match val with VNone => None | _ => datastore_pb.indexed value_pb end.
Proof.
  destruct val; simpl; intros H;
    try (unfold set_entity_value_with in H);
    try (unfold set_list_value_with in H);
    inv_bind; subst; try reflexivity; try discriminate.
Qed.

Lemma encode_list_value (val : value) (v : datastore_pb.Value) :
  _set_protobuf_value datastore_pb.Value_ val = Ok v ->
  Forall (fun x => datastore_pb.indexed x = None) (datastore_pb.list_value v).
Proof.
  destruct val; simpl; intros H;
    try (unfold set_entity_value_with in H);
    try (unfold set_list_value_with in H);
    inv_bind; subst; simpl; try constructor; try discriminate.
  match goal with H : mapM _ _ = Ok _ |- _ => apply mapM_Ok in H; rename H into HM end.
  induction HM as [|item x l xs Hx _ IH]; constructor; [|exact IH].
  apply encode_indexed in Hx. destruct item; exact Hx.
Qed.

Lemma encode_fresh_indexed_unset (val : value) (v : datastore_pb.Value) :
  _set_protobuf_value datastore_pb.Value_ val = Ok v -> indexed_unset v.
Proof.
  intros H. split.
  - rewrite (encode_indexed _ _ _ H). destruct val; reflexivity.
  - exact (encode_list_value _ _ H).
Qed.

(** C4, as stated, fails: the name "p" is excluded from indexes, yet the
    encoded property value has no [indexed] flag written and reads as
    indexed; likewise for the elements of the excluded list "q". *)
Lemma indexed_flag_counterexample :
  let e := mkEntity None ["p"; "q"]
             [("p", VInt 1); ("q", VList [VInt 2; VInt 3])] in
  In "p" (exclude_from_indexes e) /\ In "q" (exclude_from_indexes e) /\
  _set_protobuf_value datastore_pb.Value_ (VEntity e)
  = Ok (datastore_pb.set_entity_value datastore_pb.Value_
          (datastore_pb.mkEntity None
             [datastore_pb.mkProperty "p"
                (datastore_pb.set_integer_value datastore_pb.Value_ 1);
              datastore_pb.mkProperty "q"
                (datastore_pb.set_list_value datastore_pb.Value_
                   [datastore_pb.set_integer_value datastore_pb.Value_ 2;
                    datastore_pb.set_integer_value datastore_pb.Value_ 3])])) /\
  datastore_pb.get_indexed
    (datastore_pb.set_integer_value datastore_pb.Value_ 1) = true /\
  map datastore_pb.get_indexed
    [datastore_pb.set_integer_value datastore_pb.Value_ 2;
     datastore_pb.set_integer_value datastore_pb.Value_ 3] = [true; true].
Proof.
  simpl. repeat split; auto.
Qed.

(** C4, amended: for every entity being encoded as a value and every
    property in its mapping, the encoder writes one wire property of that
    name, in order, and leaves the [indexed] flag of its value and of
    every list element unwritten, so that it reads as its default [true]
    whether or not the name is in [exclude_from_indexes]. *)
Theorem encoded_entity_indexed_unset
    (value_pb : datastore_pb.Value) (e : Entity) (v : datastore_pb.Value) :
  _set_protobuf_value value_pb (VEntity e) = Ok v ->
  exists e_pb,
    datastore_pb.entity_value v = Some e_pb /\
    Forall2
      (fun (item : string * value) (p : Property) =>
         datastore_pb.property_name p = fst item /\
         indexed_unset (datastore_pb.value p) /\
         datastore_pb.get_indexed (datastore_pb.value p) = true /\
         Forall (fun x => datastore_pb.get_indexed x = true)
           (datastore_pb.list_value (datastore_pb.value p)))
      (items e) (datastore_pb.property e_pb).
Proof.
  simpl. unfold set_entity_value_with. intros H.
  apply bind_Ok in H as (k & _ & H). apply bind_Ok in H as (props & Hprops & H).
  injection H as <-. simpl. eexists. split; [reflexivity|]. simpl.
  apply mapM_Ok in Hprops.
  induction Hprops as [|item p d ps Hp _ IH]; constructor; [|exact IH].
  apply bind_Ok in Hp as (pv & Hpv & [= <-]). simpl.
  pose proof (encode_fresh_indexed_unset _ _ Hpv) as [Hi Hl].
  split; [reflexivity|]. split; [split; assumption|].
  unfold datastore_pb.get_indexed. rewrite Hi. split; [reflexivity|].
  eapply List.Forall_impl; [|exact Hl]. simpl. intros x Hx. unfold datastore_pb.get_indexed. rewrite Hx. reflexivity.
Qed.

Lemma encoded_entity_indexed_unset_witness :
  exists e_pb,
    datastore_pb.entity_value
      (datastore_pb.set_entity_value datastore_pb.Value_
         (datastore_pb.mkEntity None
            [datastore_pb.mkProperty "p"
               (datastore_pb.set_integer_value datastore_pb.Value_ 1)]))
    = Some e_pb /\
    Forall2
      (fun (item : string * value) (p : Property) =>
         datastore_pb.property_name p = fst item /\
         indexed_unset (datastore_pb.value p) /\
         datastore_pb.get_indexed (datastore_pb.value p) = true /\
         Forall (fun x => datastore_pb.get_indexed x = true)
           (datastore_pb.list_value (datastore_pb.value p)))
      [("p", VInt 1)] (datastore_pb.property e_pb).
Proof.
  apply (encoded_entity_indexed_unset datastore_pb.Value_
           (mkEntity None ["p"] [("p", VInt 1)])).
  reflexivity.
Defined.

(** ** The indexed flag on decoding *)

Lemma nodup_same (b : bool) (fl : list bool) :
  fl <> [] -> Forall (eq b) fl -> nodup Bool.bool_dec fl = [b].
Proof.
  induction fl as [|x fl IH]; [congruence|].
  intros _ H. inversion H as [|? ? Hx Hfl]; subst x. simpl.
  destruct fl as [|y fl].
  - reflexivity.
  - destruct (in_dec Bool.bool_dec b (y :: fl)) as [_|Hn].
    + apply IH; [discriminate | exact Hfl].
    + exfalso. apply Hn. inversion Hfl; subst. left. reflexivity.
Qed.

Lemma indexed_set_singleton (l : list datastore_pb.Value) :
  l <> [] ->
  (length (indexed_set l) = 1%nat <-> same_flag l).
Proof.
  intros Hne. unfold indexed_set, same_flag. split.
  - intros Hlen.
    destruct (nodup Bool.bool_dec (map datastore_pb.get_indexed l))
      as [|b [|? ?]] eqn:E; try discriminate.
    exists b. apply List.Forall_forall. intros x Hx.
    assert (In (datastore_pb.get_indexed x)
              (nodup Bool.bool_dec (map datastore_pb.get_indexed l))) as Hin.
    { apply nodup_In, in_map, Hx. }
    rewrite E in Hin. destruct Hin as [<- | []]. reflexivity.
  - intros (b & Hb). rewrite (nodup_same b).
    + reflexivity.
    + destruct l; [congruence | discriminate].
    + apply List.Forall_forall. intros fl Hfl.
      apply in_map_iff in Hfl as (x & <- & Hx).
      rewrite List.Forall_forall in Hb. symmetry. apply Hb, Hx.
Qed.

Lemma indexed_set_hd (l : list datastore_pb.Value) (x : datastore_pb.Value) :
  same_flag (x :: l) -> hd true (indexed_set (x :: l)) = datastore_pb.get_indexed x.
Proof.
  intros (b & Hb). unfold indexed_set. rewrite (nodup_same b).
  - inversion Hb; subst. reflexivity.
  - discriminate.
  - apply List.Forall_forall. intros fl Hfl.
    apply in_map_iff in Hfl as (y & <- & Hy).
    rewrite List.Forall_forall in Hb. symmetry. apply Hb, Hy.
Qed.

Lemma _get_value_from_property_pb_eq (p : Property) :
  _get_value_from_property_pb p
  = _get_value_from_value_pb (datastore_pb.value p).
Proof. destruct p; reflexivity. Qed.

(** One turn of the loop of [entity_from_protobuf] on a property whose
    value decodes. *)
Lemma record_property_spec (p : Property) (val : value)
    (props : list (string * value)) (excl : list string) :
  _get_value_from_property_pb p = Ok val ->
  (decodes_to_list p /\
   ~ same_flag (datastore_pb.list_value (datastore_pb.value p)) /\
   record_property p val (props, excl) = Raise InconsistentIndexing) \/
  ((decodes_to_list p ->
    same_flag (datastore_pb.list_value (datastore_pb.value p))) /\
   record_property p val (props, excl)
   = Ok (dict_set props (datastore_pb.property_name p) val,
         excl ++ map datastore_pb.property_name
                   (List.filter (fun p => negb (property_indexed p)) [p]))).
Proof.
  intros Hval.
  assert (map datastore_pb.property_name
            (List.filter (fun p => negb (property_indexed p)) [p])
          = if negb (property_indexed p)
            then [datastore_pb.property_name p] else []) as Hf.
  { cbn [List.filter map]. destruct (negb (property_indexed p)); reflexivity. }
  rewrite Hf. clear Hf.
  assert (forall b : bool,
            excl ++ (if negb b then [datastore_pb.property_name p] else [])
            = if negb b then excl ++ [datastore_pb.property_name p] else excl)
    as Hexcl.
  { intros []; cbn [negb]; [rewrite app_nil_r|]; reflexivity. }
  rewrite Hexcl. clear Hexcl.
  assert ((forall l, val <> VList l) ->
          property_indexed p
          = datastore_pb.get_indexed (datastore_pb.value p)) as Hpi.
  { intros Hnl. unfold property_indexed. rewrite Hval.
    destruct val; try reflexivity. exfalso. eapply Hnl. reflexivity. }
  destruct val as [| | | | | | | | |l|];
    try (right; split;
         [intros (l' & Hl'); rewrite Hval in Hl'; discriminate
         | rewrite Hpi by discriminate; unfold record_property;
           destruct (negb (datastore_pb.get_indexed (datastore_pb.value p)));
           reflexivity]).
  pose proof Hval as Hinv. rewrite _get_value_from_property_pb_eq in Hinv.
  apply decode_list_inv in Hinv as (_ & Hne & _).
  unfold property_indexed. rewrite Hval. unfold record_property.
  destruct (datastore_pb.list_value (datastore_pb.value p)) as [|x lv] eqn:Elv;
    [congruence|].
  destruct (Nat.eq_dec (length (indexed_set (x :: lv))) 1%nat) as [Hlen|Hlen].
  - right. pose proof (proj1 (indexed_set_singleton (x :: lv) Hne) Hlen) as Hsame.
    split; [intros _; exact Hsame|].
    rewrite Hlen. cbn [Nat.eqb negb].
    rewrite (indexed_set_hd lv x Hsame).
    destruct (negb (datastore_pb.get_indexed x)); reflexivity.
  - left. split; [exists l; exact Hval|]. split.
    + intros Hsame. apply Hlen. apply indexed_set_singleton; assumption.
    + apply Nat.eqb_neq in Hlen. rewrite Hlen. reflexivity.
Qed.

Lemma filter_app_names (f : Property -> bool) (l1 l2 : list Property) :
  map datastore_pb.property_name (List.filter f (l1 ++ l2))
  = map datastore_pb.property_name (List.filter f l1)
    ++ map datastore_pb.property_name (List.filter f l2).
Proof. rewrite List.filter_app, map_app. reflexivity. Qed.

(** The whole loop, when every property value decodes. *)
Lemma property_loop_spec (properties : list Property)
    (props : list (string * value)) (excl : list string) :
  (forall p, In p properties -> exists val, _get_value_from_property_pb p = Ok val) ->
  ((exists p, In p properties /\ decodes_to_list p /\
              ~ same_flag (datastore_pb.list_value (datastore_pb.value p))) /\
   foldM (fun st property_pb =>
            val ← _get_value_from_property_pb property_pb;
            record_property property_pb val st)
         properties (props, excl) = Raise InconsistentIndexing) \/
  ((forall p, In p properties -> decodes_to_list p ->
              same_flag (datastore_pb.list_value (datastore_pb.value p))) /\
   exists props',
     foldM (fun st property_pb =>
              val ← _get_value_from_property_pb property_pb;
              record_property property_pb val st)
           properties (props, excl)
     = Ok (props',
           excl ++ map datastore_pb.property_name
                     (List.filter (fun p => negb (property_indexed p)) properties))).
Proof.
  revert props excl.
  induction properties as [|p properties IH]; intros props excl Hdec.
  - right. split; [intros ? []|]. exists props. simpl. rewrite app_nil_r.
    reflexivity.
  - destruct (Hdec p (or_introl eq_refl)) as (val & Hval).
    cbn [foldM]. rewrite Hval. cbn [mbind result_bind].
    destruct (record_property_spec p val props excl Hval)
      as [(Hl & Hns & Hr) | (Hs & Hr)]; rewrite Hr; cbn [mbind result_bind].
    + left. split; [|reflexivity]. exists p. repeat split; auto. left; reflexivity.
    + specialize (IH (dict_set props (datastore_pb.property_name p) val)
                     (excl ++ map datastore_pb.property_name
                                (List.filter (fun p => negb (property_indexed p)) [p]))
                     (fun q Hq => Hdec q (or_intror Hq))).
      destruct IH as [((q & Hq & Hql & Hqn) & Hf) | (Hall & props' & Hf)].
      * left. split; [|exact Hf]. exists q. repeat split; auto. right; exact Hq.
      * right. split.
        { intros q [<- | Hq]; [exact Hs | apply Hall, Hq]. }
        exists props'. rewrite Hf. f_equal. f_equal.
        rewrite <- app_assoc, <- filter_app_names. reflexivity.
Qed.

(** C2, as stated, fails.  Every entity below carries a key.  In the
    first entity the only element of the list "p" carries the flag
    [true], yet decoding fails with [InconsistentIndexing], because that
    element is an entity whose own list "q" is flagged [true; false].  In
    the second entity the list "p" is flagged [true; true], yet decoding
    fails because of its sibling "q". *)
Lemma InconsistentIndexing_counterexample :
  let k := datastore_pb.mkKey (datastore_pb.mkPartitionId (Some "s~foo") None)
             [datastore_pb.mkPathElement "Kind" (Some 1) None] in
  let int_flag (i : Z) (b : bool) :=
    datastore_pb.set_indexed
      (datastore_pb.set_integer_value datastore_pb.Value_ i) b in
  let q := datastore_pb.mkProperty "q"
             (datastore_pb.set_list_value datastore_pb.Value_
                [int_flag 1 true; int_flag 2 false]) in
  let p := datastore_pb.mkProperty "p"
             (datastore_pb.set_list_value datastore_pb.Value_
                [datastore_pb.set_entity_value datastore_pb.Value_
                   (datastore_pb.mkEntity (Some k) [q])]) in
  let p' := datastore_pb.mkProperty "p"
              (datastore_pb.set_list_value datastore_pb.Value_
                 [int_flag 1 true; int_flag 2 true]) in
  (entity_pb_keyed (datastore_pb.mkEntity (Some k) [p]) /\
   map datastore_pb.get_indexed
     (datastore_pb.list_value (datastore_pb.value p)) = [true] /\
   entity_from_protobuf (datastore_pb.mkEntity (Some k) [p])
   = Raise InconsistentIndexing) /\
  (entity_pb_keyed (datastore_pb.mkEntity (Some k) [p'; q]) /\
   map datastore_pb.get_indexed
     (datastore_pb.list_value (datastore_pb.value p')) = [true; true] /\
   _get_value_from_property_pb p' = Ok (VList [VInt 1; VInt 2]) /\
   entity_from_protobuf (datastore_pb.mkEntity (Some k) [p'; q])
   = Raise InconsistentIndexing).
Proof.
  intros k.
  assert (exists k', Some k = Some k' /\ key_pb_sound k') as Hkey.
  { exists k. split; [reflexivity|]. split; [discriminate|].
    split; [repeat constructor; right; reflexivity | exact I]. }
  cbn. repeat split; exact Hkey.
Qed.

Lemma entity_from_protobuf_eq (pb : datastore_pb.Entity) :
  entity_from_protobuf pb
  = (st ← foldM
            (fun st property_pb =>
               val ← _get_value_from_property_pb property_pb;
               record_property property_pb val st)
            (datastore_pb.property pb) ([], []);
     Ok (mkEntity (Some (key_from_protobuf (datastore_pb.get_key pb)))
           (snd st) (fst st))).
Proof. destruct pb; reflexivity. Qed.

(** C2, amended: for every wire entity in which every entity, the entity
    itself and those nested in its values, carries a key, every key has
    at least one path element and is conformant, and whose property
    values all decode, decoding the entity fails with
    [InconsistentIndexing] exactly when some property decoded to a list
    has elements that do not all carry the same indexed flag; when every
    such list is uniform the decoding succeeds, and
    [exclude_from_indexes] holds, in wire order, the names of the
    properties whose flag (the uniform flag of a list, the own flag of any
    other value) is false. *)
Theorem entity_decoding_indexing (pb : datastore_pb.Entity) :
  entity_pb_keyed pb ->
  (forall p, In p (datastore_pb.property pb) ->
             exists val, _get_value_from_property_pb p = Ok val) ->
  (entity_from_protobuf pb = Raise InconsistentIndexing <->
   exists p, In p (datastore_pb.property pb) /\ decodes_to_list p /\
             ~ same_flag (datastore_pb.list_value (datastore_pb.value p))) /\
  ((forall p, In p (datastore_pb.property pb) -> decodes_to_list p ->
              same_flag (datastore_pb.list_value (datastore_pb.value p))) ->
   exists e,
     entity_from_protobuf pb = Ok e /\
     exclude_from_indexes e
     = map datastore_pb.property_name
         (List.filter (fun p => negb (property_indexed p))
            (datastore_pb.property pb))).
Proof.
  intros _ Hdec. rewrite entity_from_protobuf_eq.
  destruct (property_loop_spec (datastore_pb.property pb) [] [] Hdec)
    as [((p & Hp & Hl & Hn) & Hf) | (Hall & props' & Hf)];
    rewrite Hf; cbn [mbind result_bind].
  - split.
    + split; [intros _; exists p; auto | reflexivity].
    + intros Hall. exfalso. apply Hn, Hall; assumption.
  - split.
    + split; [discriminate|].
      intros (p & Hp & Hl & Hn). exfalso. apply Hn, Hall; assumption.
    + intros _. eexists. split; reflexivity.
Qed.

Lemma entity_decoding_indexing_witness :
  let k := datastore_pb.mkKey (datastore_pb.mkPartitionId (Some "s~foo") None)
             [datastore_pb.mkPathElement "Kind" (Some 1) None] in
  let int_flag (i : Z) (b : bool) :=
    datastore_pb.set_indexed
      (datastore_pb.set_integer_value datastore_pb.Value_ i) b in
  let pb := datastore_pb.mkEntity (Some k)
              [datastore_pb.mkProperty "a"
                 (datastore_pb.set_list_value datastore_pb.Value_
                    [int_flag 1 true; int_flag 2 true]);
               datastore_pb.mkProperty "b"
                 (datastore_pb.set_list_value datastore_pb.Value_
                    [int_flag 3 false; int_flag 4 false])] in
  exists e,
    entity_from_protobuf pb = Ok e /\
    exclude_from_indexes e
    = map datastore_pb.property_name
        (List.filter (fun p => negb (property_indexed p))
           (datastore_pb.property pb)).
Proof.
  intros k int_flag pb.
  apply (fun Hk H => proj2 (entity_decoding_indexing pb Hk H)).
  - cbn. repeat split. exists k. split; [reflexivity|].
    split; [discriminate|].
    split; [repeat constructor; right; reflexivity | exact I].
  - intros p [<- | [<- | []]]; eexists; reflexivity.
  - intros p [<- | [<- | []]] _.
    + exists true. repeat constructor.
    + exists false. repeat constructor.
Defined.

(** ** Round trip *)

Section value_ind.
Variable P : value -> Prop.
Hypothesis HNone : P VNone.
Hypothesis HBool : forall b, P (VBool b).
Hypothesis HInt : forall i, P (VInt i).
Hypothesis HFloat : forall d, P (VFloat d).
Hypothesis HDatetime : forall dt, P (VDatetime dt).
Hypothesis HKey : forall k, P (VKey k).
Hypothesis HText : forall s, P (VText s).
Hypothesis HBytes : forall b, P (VBytes b).
Hypothesis HEntity : forall k x d,
  Forall (fun item => P (snd item)) d -> P (VEntity (mkEntity k x d)).
Hypothesis HList : forall l, Forall P l -> P (VList l).
Hypothesis HOther : P VOther.

Lemma value_ind : forall v, P v.
Proof.
  fix F 1. intros [| b | i | d | dt | k | s | b | e | l |];
    [apply HNone | apply HBool | apply HInt | apply HFloat | apply HDatetime
    | apply HKey | apply HText | apply HBytes | | | apply HOther].
  - destruct e as [k x d]. apply HEntity.
    induction d as [|item d IH]; constructor; [|exact IH].
    destruct item as [n v]. apply F.
  - apply HList. induction l as [|x l IH]; constructor; [apply F | exact IH].
Qed.
End value_ind.

Lemma supported_entity (k : option key.Key) (x : list string)
    (d : list (string * value)) :
  supported (VEntity (mkEntity k x d)) <->
  (exists k', k = Some k' /\ key.well_formed k') /\ x = [] /\
  List.NoDup (map fst d) /\ Forall (fun item => supported (snd item)) d.
Proof.
  cbn [supported].
  assert ((fix all (d : list (string * value)) : Prop :=
             match d with
             | [] => True
             | item :: d' => supported (snd item) /\ all d'
             end) d <-> Forall (fun item => supported (snd item)) d) as ->.
  { induction d as [|item d IH]; [split; constructor|].
    rewrite IH. split; [intros [? ?]; constructor; assumption|].
    intros H; inversion H; subst; split; assumption. }
  reflexivity.
Qed.

Lemma supported_list (l : list value) :
  supported (VList l) <-> l <> [] /\ Forall supported l.
Proof.
  cbn [supported].
  assert ((fix all (l : list value) : Prop :=
             match l with
             | [] => True
             | x :: l' => supported x /\ all l'
             end) l <-> Forall supported l) as ->.
  { induction l as [|x l IH]; [split; constructor|].
    rewrite IH. split; [intros [? ?]; constructor; assumption|].
    intros H; inversion H; subst; split; assumption. }
  reflexivity.
Qed.

(** *** Keys *)

Lemma pairs_ind (P : list path_arg -> Prop) :
  P [] -> (forall k, P [k]) -> (forall k i rest, P rest -> P (k :: i :: rest)) ->
  forall args, P args.
Proof.
  intros H0 H1 H2 args.
  assert (P args /\ forall a, P (a :: args)) as [H _]; [|exact H].
  induction args as [|b args [IH1 IH2]]; [split; auto|].
  split; [apply IH2|]. intros a. apply H2, IH1.
Qed.

Lemma flat_path_roundtrip (args : list path_arg) :
  Forall (fun seg => key.is_kind (fst seg)) (key.path args) ->
  exists elems,
    mapM key.element_of_segment (key.path args) = Ok elems /\
    flat_map element_args elems = args.
Proof.
  induction args as [|k|k i rest IH] using pairs_ind; intros Hwf.
  - exists []. split; reflexivity.
  - inversion Hwf as [|? ? Hk _]; subst. destruct k as [s|]; [|destruct Hk].
    eexists. split; reflexivity.
  - cbn [key.path] in Hwf. inversion Hwf as [|? ? Hk Hrest]; subst.
    destruct (IH Hrest) as (elems & Hm & Hf).
    destruct k as [s|]; [|destruct Hk].
    cbn [key.path mapM]. fold (mapM key.element_of_segment (key.path rest)).
    rewrite Hm.
    destruct i as [n|i]; eexists; (split; [reflexivity|]);
      cbn [flat_map]; rewrite Hf; reflexivity.
Qed.

Lemma key_roundtrip (k : key.Key) :
  key.well_formed k ->
  exists pb, key.to_protobuf k = Ok pb /\ key_from_protobuf pb = k.
Proof.
  intros Hwf. destruct (flat_path_roundtrip _ Hwf) as (elems & Hm & Hf).
  unfold key.to_protobuf. rewrite Hm. eexists. split; [reflexivity|].
  rewrite key_from_protobuf_eq. cbn. rewrite Hf. destruct k; reflexivity.
Qed.

(** *** Dictionaries *)

Lemma dict_set_fresh {V} (d : list (string * V)) (k : string) (v : V) :
  ~ In k (map fst d) -> dict_set d k v = d ++ [(k, v)].
Proof.
  induction d as [|[k' v'] d IH]; simpl; [reflexivity|].
  intros Hn. destruct (String.eqb_spec k' k) as [->|_].
  - exfalso. apply Hn. left. reflexivity.
  - rewrite IH; [reflexivity|]. intros Hin. apply Hn. right. exact Hin.
Qed.

(** *** Entities and lists *)

Lemma encoded_property_indexed (item : string * value) (p : Property) :
  encodes item p -> property_indexed p = true.
Proof.
  intros (_ & Henc & Hdec).
  destruct (encode_fresh_indexed_unset _ _ Henc) as [Hi Hl].
  unfold property_indexed. rewrite _get_value_from_property_pb_eq, Hdec.
  assert (datastore_pb.get_indexed (datastore_pb.value p) = true) as Hp.
  { unfold datastore_pb.get_indexed. rewrite Hi. reflexivity. }
  destruct (snd item); try exact Hp.
  destruct (datastore_pb.list_value (datastore_pb.value p)) as [|x lv];
    [reflexivity|].
  inversion Hl as [|? ? Hx _]; subst.
  unfold datastore_pb.get_indexed. rewrite Hx. reflexivity.
Qed.

Lemma encoded_property_same_flag (item : string * value) (p : Property) :
  encodes item p ->
  same_flag (datastore_pb.list_value (datastore_pb.value p)).
Proof.
  intros (_ & Henc & _).
  destruct (encode_fresh_indexed_unset _ _ Henc) as [_ Hl].
  exists true. eapply List.Forall_impl; [|exact Hl].
  intros x Hx. unfold datastore_pb.get_indexed. rewrite Hx. reflexivity.
Qed.

Lemma property_loop_roundtrip (d : list (string * value))
    (properties : list Property) (acc : list (string * value)) :
  Forall2 encodes d properties ->
  List.NoDup (map fst (acc ++ d)) ->
  foldM (fun st property_pb =>
           val ← _get_value_from_property_pb property_pb;
           record_property property_pb val st)
        properties (acc, [])
  = Ok (acc ++ d, []).
Proof.
  intros H. revert acc.
  induction H as [|item p d properties Hp _ IH]; intros acc Hnd.
  - rewrite app_nil_r. reflexivity.
  - cbn [foldM]. pose proof Hp as (Hname & Henc & Hdec).
    rewrite _get_value_from_property_pb_eq, Hdec. cbn [mbind result_bind].
    destruct (record_property_spec p (snd item) acc []
                ltac:(rewrite _get_value_from_property_pb_eq; exact Hdec))
      as [(_ & Hns & _) | (_ & Hr)].
    { exfalso. apply Hns. eapply encoded_property_same_flag. exact Hp. }
    rewrite Hr. cbn [mbind result_bind List.filter].
    rewrite (encoded_property_indexed item p Hp). cbn [negb map app].
    rewrite Hname, dict_set_fresh.
    + rewrite IH.
      * rewrite <- app_assoc. destruct item; reflexivity.
      * rewrite <- app_assoc. destruct item; exact Hnd.
    + rewrite map_app in Hnd. cbn [map] in Hnd. apply List.NoDup_remove_2 in Hnd.
      intros Hin. apply Hnd. apply in_or_app. left. exact Hin.
Qed.

Lemma Forall_roundtrip {A B} (R : A -> B -> Prop) (S : A -> Prop)
    (l : list A) :
  Forall (fun x => S x -> exists y, R x y) l -> Forall S l ->
  exists l', Forall2 R l l'.
Proof.
  induction 1 as [|x l Hx _ IH]; intros HS.
  - exists []. constructor.
  - inversion HS as [|? ? Sx Sl]; subst.
    destruct (Hx Sx) as (y & Hy). destruct (IH Sl) as (l' & Hl').
    exists (y :: l'). constructor; assumption.
Qed.

Lemma decode_timestamp (v : datastore_pb.Value) (us : Z) :
  datastore_pb.timestamp_microseconds_value v = Some us ->
  _get_value_from_value_pb v
  = if datetime.in_range us
    then Ok (VDatetime (datetime.mkdatetime us (Some pytz_utc)))
    else Raise DateOutOfRange.
Proof.
  destruct v; cbn [datastore_pb.timestamp_microseconds_value]. intros ->.
  cbn [_get_value_from_value_pb datastore_pb.timestamp_microseconds_value].
  unfold datetime.add_microseconds, datetime.utcfromtimestamp0.
  cbn [datetime.wall datetime.tz]. change (0 + us) with us.
  destruct (datetime.in_range us); reflexivity.
Qed.

Lemma encode_decode (v : value) :
  supported v ->
  exists pb, _set_protobuf_value datastore_pb.Value_ v = Ok pb /\
             _get_value_from_value_pb pb = Ok v.
Proof.
  induction v as [| b | i | d | dt | k | s | b | k x d IH | l IH |] using value_ind;
    intros Hs.
  - eexists. split; reflexivity.
  - eexists. split; reflexivity.
  - cbn [supported] in Hs. cbn [_set_protobuf_value _pb_attr_value].
    rewrite (proj1 (INT_VALUE_CHECKER_spec i) Hs).
    eexists. split; reflexivity.
  - eexists. split; reflexivity.
  - destruct Hs as [Htz Hv]. destruct dt as [w z]. cbn in Htz. subst z.
    cbn [_set_protobuf_value]. rewrite encode_utc_datetime.
    unfold datetime.valid in Hv. cbn [datetime.wall] in Hv.
    pose proof (proj2 (in_range_valid w) Hv) as Hr. rewrite Hr.
    eexists. split; [reflexivity|].
    rewrite (decode_timestamp _ w) by reflexivity. rewrite Hr. reflexivity.
  - cbn [supported] in Hs. destruct (key_roundtrip k Hs) as (pb & Hto & Hfrom).
    cbn [_set_protobuf_value _pb_attr_value]. rewrite Hto.
    eexists. split; [reflexivity|]. cbn. rewrite Hfrom. reflexivity.
  - eexists. split; reflexivity.
  - eexists. split; reflexivity.
  - apply supported_entity in Hs as ((k' & -> & Hk) & -> & Hnd & Hd).
    destruct (key_roundtrip k' Hk) as (kpb & Hto & Hfrom).
    destruct (Forall_roundtrip
                (fun item pb =>
                   _set_protobuf_value datastore_pb.Value_ (snd item) = Ok pb /\
                   _get_value_from_value_pb pb = Ok (snd item))
                (fun item => supported (snd item)) d IH Hd) as (pvs & Hpvs).
    set (props := map (fun ip : (string * value) * datastore_pb.Value =>
                         datastore_pb.mkProperty (fst (fst ip)) (snd ip))
                      (combine d pvs)).
    assert (Forall2 encodes d props) as Henc.
    { subst props. clear -Hpvs.
      induction Hpvs as [|item pv d pvs [H1 H2] _ IHp]; constructor; [|exact IHp].
      repeat split; assumption. }
    assert (mapM (fun item : string * value =>
                    p_value ← _set_protobuf_value datastore_pb.Value_ (snd item);
                    Ok (datastore_pb.mkProperty (fst item) p_value)) d
            = Ok props) as Hm.
    { apply mapM_Ok. clear -Henc.
      induction Henc as [|item p d props (Hn & He & _) _ IHp]; constructor;
        [|exact IHp].
      rewrite He. destruct p. cbn in *. rewrite Hn. reflexivity. }
    cbn [_set_protobuf_value]. unfold set_entity_value_with.
    cbn [entity_key]. rewrite Hto. cbn [mbind result_bind items].
    rewrite Hm. cbn [mbind result_bind].
    eexists. split; [reflexivity|].
    cbn [_get_value_from_value_pb datastore_pb.set_entity_value
         datastore_pb.timestamp_microseconds_value datastore_pb.key_value
         datastore_pb.boolean_value datastore_pb.double_value
         datastore_pb.integer_value datastore_pb.string_value
         datastore_pb.blob_value datastore_pb.entity_value datastore_pb.Value_].
    fold entity_from_protobuf.
    rewrite entity_from_protobuf_eq.
    cbn [datastore_pb.property datastore_pb.Entity_ app].
    rewrite (property_loop_roundtrip d props [] Henc Hnd).
    cbn. rewrite Hfrom. reflexivity.
  - apply supported_list in Hs as (Hne & Hl).
    destruct (Forall_roundtrip
                (fun x pb =>
                   _set_protobuf_value datastore_pb.Value_ x = Ok pb /\
                   _get_value_from_value_pb pb = Ok x)
                supported l IH Hl) as (added & Hadded).
    assert (mapM (fun item => _set_protobuf_value datastore_pb.Value_ item) l
            = Ok added) as Hm.
    { apply mapM_Ok. eapply Forall2_impl; [exact Hadded|]. intros ? ? [? _].
      assumption. }
    assert (mapM _get_value_from_value_pb added = Ok l) as Hm'.
    { apply mapM_Ok. clear -Hadded.
      induction Hadded as [|x y l added [_ H] _ IHa]; constructor; assumption. }
    cbn [_set_protobuf_value]. unfold set_list_value_with.
    rewrite Hm. cbn [mbind result_bind].
    eexists. split; [reflexivity|].
    rewrite decode_no_tag by (unfold no_tag_set; cbn; repeat split).
    cbn [datastore_pb.list_value datastore_pb.set_list_value
         datastore_pb.Value_ app].
    destruct added as [|y added].
    { inversion Hadded; subst. congruence. }
    rewrite Hm'. reflexivity.
  - destruct Hs.
Qed.

(** C1, as stated, fails: the empty list is encoded as a message with no
    field populated, which decodes to [None].  Two further values do not
    come back either: an entity without key comes back with a key of
    empty path, and an entity comes back with no name excluded from
    indexes. *)
Lemma roundtrip_counterexample :
  roundtrip (VList []) = Ok VNone /\
  roundtrip (VList []) <> Ok (VList []) /\
  roundtrip (VEntity (mkEntity None [] []))
    = Ok (VEntity (mkEntity (Some (key.mkKey [] None None)) [] [])) /\
  roundtrip (VEntity (mkEntity (Some (key.mkKey [PStr "K"; PInt 1] None None))
                        ["p"] [("p", VInt 1)]))
    = Ok (VEntity (mkEntity (Some (key.mkKey [PStr "K"; PInt 1] None None))
                     [] [("p", VInt 1)])).
Proof.
  repeat split. discriminate.
Qed.

(** C1, amended: for every value built from null, booleans, 64-bit
    integers, doubles, UTC timestamps, text strings, byte strings, keys
    with string kinds, entities that carry such a key and exclude no
    property from indexes, and non-empty lists (the property values and
    list elements being such values again), decoding the wire value
    produced by encoding the value into a fresh message yields the value
    again. *)
Theorem roundtrip_supported (v : value) :
  supported v -> roundtrip v = Ok v.
Proof.
  intros Hs. destruct (encode_decode v Hs) as (pb & Henc & Hdec).
  unfold roundtrip. rewrite Henc. exact Hdec.
Qed.

Lemma roundtrip_supported_witness :
  let k := key.mkKey [PStr "Person"; PInt 123; PStr "Address"; PStr "home"]
             (Some "ns") (Some "s~foo") in
  let v := VList
             [VEntity
                (mkEntity (Some k) []
                   [("when", VDatetime (datetime.of_fields 2021 1 1 0 0 0 0
                                          (Some pytz_utc)));
                    ("tags", VList [VText "a"; VNone; VInt (2 ^ 63 - 1)]);
                    ("raw", VBytes [Byte.x00; Byte.xff]);
                    ("owner", VKey k)]);
              VBool true; VFloat 4607182418800017408] in
  roundtrip v = Ok v.
Proof.
  intros k v. apply (roundtrip_supported v).
  assert (key.well_formed k) as Hk.
  { repeat constructor. }
  apply supported_list. split; [discriminate|].
  constructor; [|repeat constructor].
  apply supported_entity. split; [exists k; split; [reflexivity | exact Hk]|].
  split; [reflexivity|]. split.
  - repeat constructor; cbn; intuition discriminate.
  - constructor; [|constructor; [|constructor; [|constructor; [|constructor]]]].
    + split; [reflexivity|].
      unfold datetime.valid. split; vm_compute; discriminate.
    + apply supported_list. split; [discriminate|].
      repeat constructor; unfold int64; lia.
    + exact I.
    + exact Hk.
Defined.

(** * Further properties *)

(** ** Requests *)

Lemma prepare_key_inv (σ : request.store) (key_pb : request.ref)
    (k : datastore_pb.Key) :
  σ !! key_pb = Some k ->
  exists new_key_pb σ',
    request._prepare_key_for_request key_pb σ = Some (new_key_pb, σ') /\
    σ' !! new_key_pb = Some (request.clear_dataset_id k) /\
    (forall r, is_Some (σ !! r) -> σ' !! r = σ !! r).
Proof.
  intros Hk. unfold request._prepare_key_for_request. rewrite Hk. simpl.
  destruct (datastore_pb.dataset_id (datastore_pb.partition_id k)) as [d|] eqn:Hd.
  - eexists _, _. split; [reflexivity|]. split.
    + rewrite lookup_alter_eq, !lookup_insert_eq. reflexivity.
    + intros r Hr.
      assert (r <> fresh (dom σ)) as Hne.
      { intros ->. apply (is_fresh (dom σ)). apply elem_of_dom. exact Hr. }
      rewrite lookup_alter_ne, !lookup_insert_ne by congruence. reflexivity.
  - exists key_pb, σ. split; [reflexivity|]. split; [|reflexivity].
    rewrite Hk. f_equal. destruct k as [[ds ns] path]. simpl in Hd. subst ds.
    reflexivity.
Qed.

Lemma add_keys_spec (key_pbs : list request.ref) :
  forall (keys : list datastore_pb.Key) (request_field_pb : list datastore_pb.Key)
         (σ : request.store),
    Forall2 (fun r k => σ !! r = Some k) key_pbs keys ->
    exists σ',
      _add_keys_to_request request_field_pb key_pbs σ
      = Some (request_field_pb ++ map request.clear_dataset_id keys, σ') /\
      (forall r, is_Some (σ !! r) -> σ' !! r = σ !! r).
Proof.
  induction key_pbs as [|r key_pbs IH]; intros keys field σ H;
    inversion H as [|? k ? keys' Hr Hrest]; subst.
  - exists σ. simpl. rewrite app_nil_r. split; reflexivity.
  - destruct (prepare_key_inv σ r k Hr) as (r' & σ1 & Hp & Hl & Hframe).
    assert (Forall2 (fun r k => σ1 !! r = Some k) key_pbs keys') as Hrest'.
    { eapply Forall2_impl; [exact Hrest|]. intros r0 k0 H0. cbn beta in *.
      rewrite Hframe; [exact H0 | rewrite H0; eexists; reflexivity]. }
    destruct (IH keys' (field ++ [request.clear_dataset_id k]) σ1 Hrest')
      as (σ' & Hadd & Hframe').
    exists σ'. split.
    + cbn [_add_keys_to_request]. rewrite Hp. simpl. rewrite Hl. simpl.
      rewrite Hadd. rewrite <- app_assoc. reflexivity.
    + intros r0 Hr0. rewrite Hframe'; [apply Hframe, Hr0|].
      rewrite Hframe by exact Hr0. exact Hr0.
Qed.

(** X1: the request field receives, after the keys it already holds, one
    key per key passed in, in order; each is the key passed in with its
    dataset id cleared and its namespace and path as they were. *)
Theorem add_keys_to_request_contents
    (request_field_pb : list datastore_pb.Key) (key_pbs : list request.ref)
    (keys : list datastore_pb.Key) (σ : request.store) :
  Forall2 (fun r k => σ !! r = Some k) key_pbs keys ->
  exists added σ',
    _add_keys_to_request request_field_pb key_pbs σ
    = Some (request_field_pb ++ added, σ') /\
    Forall2
      (fun k k' =>
         datastore_pb.dataset_id (datastore_pb.partition_id k') = None /\
         datastore_pb.namespace (datastore_pb.partition_id k')
           = datastore_pb.namespace (datastore_pb.partition_id k) /\
         datastore_pb.path_element k' = datastore_pb.path_element k)
      keys added.
Proof.
  intros H. destruct (add_keys_spec key_pbs keys request_field_pb σ H)
    as (σ' & Hadd & _).
  exists (map request.clear_dataset_id keys), σ'. split; [exact Hadd|].
  clear. induction keys as [|k keys IH]; constructor; [|exact IH].
  repeat split.
Qed.

Lemma add_keys_to_request_contents_witness :
  let k1 := datastore_pb.mkKey
              (datastore_pb.mkPartitionId (Some "s~foo") (Some "ns"))
              [datastore_pb.mkPathElement "Person" (Some 123) None] in
  let k2 := datastore_pb.mkKey (datastore_pb.mkPartitionId None None)
              [datastore_pb.mkPathElement "Address" None (Some "home")] in
  exists added σ',
    _add_keys_to_request [] [0%nat; 1%nat] {[ 0%nat := k1; 1%nat := k2 ]}
    = Some ([] ++ added, σ') /\
    Forall2
      (fun k k' =>
         datastore_pb.dataset_id (datastore_pb.partition_id k') = None /\
         datastore_pb.namespace (datastore_pb.partition_id k')
           = datastore_pb.namespace (datastore_pb.partition_id k) /\
         datastore_pb.path_element k' = datastore_pb.path_element k)
      [k1; k2] added.
Proof.
  intros k1 k2.
  apply (add_keys_to_request_contents [] [0%nat; 1%nat] [k1; k2]).
  repeat constructor.
Defined.

(** X2: adding keys to a request changes none of the messages that were
    in the store: the keys passed in keep their dataset id. *)
Theorem add_keys_to_request_frame
    (request_field_pb : list datastore_pb.Key) (key_pbs : list request.ref)
    (σ : request.store) (result : list datastore_pb.Key) (σ' : request.store) :
  _add_keys_to_request request_field_pb key_pbs σ = Some (result, σ') ->
  forall r, is_Some (σ !! r) -> σ' !! r = σ !! r.
Proof.
  revert request_field_pb σ.
  induction key_pbs as [|key_pb key_pbs IH]; intros field σ H r Hr.
  - injection H as _ <-. reflexivity.
  - cbn [_add_keys_to_request] in H.
    destruct (σ !! key_pb) as [k|] eqn:Hk.
    + destruct (prepare_key_inv σ key_pb k Hk) as (r' & σ1 & Hp & Hl & Hframe).
      rewrite Hp in H. simpl in H. rewrite Hl in H. simpl in H.
      rewrite (IH _ _ H r); [apply Hframe, Hr|].
      rewrite Hframe by exact Hr. exact Hr.
    + unfold request._prepare_key_for_request in H. rewrite Hk in H.
      discriminate.
Qed.

Lemma add_keys_to_request_frame_witness :
  let k1 := datastore_pb.mkKey
              (datastore_pb.mkPartitionId (Some "s~foo") (Some "ns"))
              [datastore_pb.mkPathElement "Person" (Some 123) None] in
  exists result σ',
    _add_keys_to_request [] [0%nat] {[ 0%nat := k1 ]} = Some (result, σ') /\
    σ' !! 0%nat = Some k1.
Proof.
  intros k1.
  destruct (add_keys_spec [0%nat] [k1] [] {[ 0%nat := k1 ]})
    as (σ' & H & _).
  { repeat constructor. }
  eexists _, σ'. split; [exact H|].
  eapply eq_trans.
  - apply (add_keys_to_request_frame [] [0%nat] {[ 0%nat := k1 ]} _ σ' H
             0%nat).
    rewrite lookup_singleton_eq. eexists. reflexivity.
  - apply lookup_singleton_eq.
Defined.

(** X3: preparing a prepared key changes nothing: the second call returns
    the reference and the store of the first. *)
Theorem prepare_key_for_request_idempotent
    (σ σ' : request.store) (key_pb key_pb' : request.ref) :
  request._prepare_key_for_request key_pb σ = Some (key_pb', σ') ->
  request._prepare_key_for_request key_pb' σ' = Some (key_pb', σ').
Proof.
  intros H. destruct (σ !! key_pb) as [k|] eqn:Hk.
  - destruct (prepare_key_inv σ key_pb k Hk) as (r' & σ1 & Hp & Hl & _).
    rewrite Hp in H. injection H as <- <-.
    unfold request._prepare_key_for_request. rewrite Hl. reflexivity.
  - unfold request._prepare_key_for_request in H. rewrite Hk in H.
    discriminate.
Qed.

Lemma prepare_key_for_request_idempotent_witness :
  let k := datastore_pb.mkKey
             (datastore_pb.mkPartitionId (Some "s~foo") (Some "ns"))
             [datastore_pb.mkPathElement "Person" (Some 123) None] in
  exists key_pb' σ',
    request._prepare_key_for_request 0%nat {[ 0%nat := k ]}
      = Some (key_pb', σ') /\
    request._prepare_key_for_request key_pb' σ' = Some (key_pb', σ').
Proof.
  intros k.
  assert (exists key_pb' σ',
            request._prepare_key_for_request 0%nat {[ 0%nat := k ]}
            = Some (key_pb', σ')) as (key_pb' & σ' & H).
  { unfold request._prepare_key_for_request. rewrite lookup_singleton_eq.
    eexists _, _. reflexivity. }
  exists key_pb', σ'. split; [exact H|].
  exact (prepare_key_for_request_idempotent _ _ _ _ H).
Defined.

(** ** Dataset identifiers, continued *)

Lemma dataset_ids_equal_true (a b : string) :
  _dataset_ids_equal a b = true <->
  a = b \/
  (prefixed a = true /\ slice_from 2 a = b) \/
  (prefixed a = false /\ prefixed b = true /\ a = slice_from 2 b).
Proof.
  unfold _dataset_ids_equal. fold (prefixed a). fold (prefixed b).
  destruct (String.eqb_spec a b) as [->|Hne].
  { split; [left; reflexivity | reflexivity]. }
  destruct (prefixed a) eqn:Pa.
  - rewrite String.eqb_eq. split.
    + intros H. right. left. split; [reflexivity | exact H].
    + intros [H | [[_ H] | [H _]]]; [contradiction | exact H | discriminate].
  - destruct (prefixed b) eqn:Pb.
    + rewrite String.eqb_eq. split.
      * intros H. right. right. repeat split. exact H.
      * intros [H | [[H _] | (_ & _ & H)]];
          [contradiction | discriminate | exact H].
    + split; [discriminate|].
      intros [H | [[H _] | (_ & H & _)]]; [contradiction | discriminate..].
Qed.

Lemma dataset_identifier_suffix (a : string) :
  dataset_identifier a -> prefixed a = true -> prefixed (slice_from 2 a) = false.
Proof.
  intros [Ha | (t & Ht & [-> | ->])] Hp.
  - unfold bare in Ha. congruence.
  - exact Ht.
  - exact Ht.
Qed.

Lemma dataset_ids_equal_sym_true (a b : string) :
  dataset_identifier a -> dataset_identifier b ->
  _dataset_ids_equal a b = true -> _dataset_ids_equal b a = true.
Proof.
  intros Ha Hb H. apply dataset_ids_equal_true in H.
  apply dataset_ids_equal_true.
  destruct H as [-> | [[Pa E] | (Pa & Pb & E)]].
  - left. reflexivity.
  - right. right. subst b. repeat split; [|exact Pa].
    apply dataset_identifier_suffix; assumption.
  - right. left. split; [exact Pb | symmetry; exact E].
Qed.

(** X4: on dataset identifiers the comparison is symmetric. *)
Theorem dataset_ids_equal_symmetric (a b : string) :
  dataset_identifier a -> dataset_identifier b ->
  _dataset_ids_equal a b = _dataset_ids_equal b a.
Proof.
  intros Ha Hb.
  destruct (_dataset_ids_equal a b) eqn:E1, (_dataset_ids_equal b a) eqn:E2;
    try reflexivity.
  - rewrite (dataset_ids_equal_sym_true a b Ha Hb E1) in E2. discriminate.
  - rewrite (dataset_ids_equal_sym_true b a Hb Ha E2) in E1. discriminate.
Qed.

Lemma dataset_ids_equal_symmetric_witness :
  _dataset_ids_equal "foo" "e~foo" = _dataset_ids_equal "e~foo" "foo".
Proof.
  apply (dataset_ids_equal_symmetric "foo" "e~foo").
  - left. reflexivity.
  - right. exists "foo". split; [reflexivity | right; reflexivity].
Defined.

(** X5: two dataset identifiers that both carry a prefix are found equal
    only when they are the same string. *)
Theorem dataset_ids_equal_prefixed (a b : string) :
  dataset_identifier a -> dataset_identifier b ->
  prefixed a = true -> prefixed b = true ->
  (_dataset_ids_equal a b = true <-> a = b).
Proof.
  intros Ha Hb Pa Pb. rewrite dataset_ids_equal_true. split.
  - intros [H | [[_ E] | (Pa' & _)]]; [exact H | | congruence].
    pose proof (dataset_identifier_suffix a Ha Pa) as Hs.
    rewrite E in Hs. congruence.
  - intros H. left. exact H.
Qed.

Lemma dataset_ids_equal_prefixed_witness :
  _dataset_ids_equal "s~foo" "e~foo" = true <-> "s~foo" = "e~foo".
Proof.
  apply (dataset_ids_equal_prefixed "s~foo" "e~foo").
  - right. exists "foo". split; [reflexivity | left; reflexivity].
  - right. exists "foo". split; [reflexivity | right; reflexivity].
  - reflexivity.
  - reflexivity.
Defined.

Lemma string_cons2_neq (c1 c2 : ascii) (t : string) :
  String c1 (String c2 t) <> t.
Proof.
  intros H. apply (f_equal String.length) in H. simpl in H. lia.
Qed.

(** X6: the comparison is not transitive.  For every bare identifier its
    "s~" form matches the bare form and the bare form matches the "e~"
    form, but the "s~" form does not match the "e~" form. *)
Theorem dataset_ids_equal_not_transitive (t : string) :
  bare t ->
  _dataset_ids_equal (String.append "s~" t) t = true /\
  _dataset_ids_equal t (String.append "e~" t) = true /\
  _dataset_ids_equal (String.append "s~" t) (String.append "e~" t) = false.
Proof.
  intros Ht. destruct (prefixed_append t) as [Ps Pe].
  split; [|split].
  - apply dataset_ids_equal_true. right. left. split; [exact Ps | reflexivity].
  - apply dataset_ids_equal_true. right. right. repeat split; assumption.
  - destruct (_dataset_ids_equal _ _) eqn:E; [|reflexivity].
    apply dataset_ids_equal_true in E.
    destruct E as [E | [[_ E] | (E & _)]].
    + discriminate.
    + simpl in E. symmetry in E. apply string_cons2_neq in E. destruct E.
    + congruence.
Qed.

Lemma dataset_ids_equal_not_transitive_witness :
  _dataset_ids_equal "s~foo" "foo" = true /\
  _dataset_ids_equal "foo" "e~foo" = true /\
  _dataset_ids_equal "s~foo" "e~foo" = false.
Proof.
  apply (dataset_ids_equal_not_transitive "foo"). reflexivity.
Defined.

(** ** Keys, continued *)

Lemma segment_of_inj (e1 e2 : PathElement) :
  at_most_one_identifier e1 -> at_most_one_identifier e2 ->
  segment_of e1 = segment_of e2 -> e1 = e2.
Proof.
  destruct e1 as [k1 i1 n1], e2 as [k2 i2 n2].
  unfold at_most_one_identifier, segment_of, identifier_of. simpl.
  intros [-> | ->] [-> | ->] H;
    repeat match goal with
           | x : option _ |- _ => destruct x
           end;
    congruence.
Qed.

Lemma map_segment_of_inj (l1 l2 : list PathElement) :
  Forall at_most_one_identifier l1 -> Forall at_most_one_identifier l2 ->
  map segment_of l1 = map segment_of l2 -> l1 = l2.
Proof.
  revert l2. induction l1 as [|e1 l1 IH]; intros [|e2 l2] H1 H2 H;
    try discriminate; [reflexivity|].
  inversion H1; inversion H2; subst.
  assert (segment_of e1 = segment_of e2 /\
          map segment_of l1 = map segment_of l2) as [He Hl].
  { change (segment_of e1 :: map segment_of l1
            = segment_of e2 :: map segment_of l2) in H.
    split; congruence. }
  f_equal; [apply segment_of_inj; assumption | apply IH; assumption].
Qed.

Lemma key_from_protobuf_fields (pb1 pb2 : datastore_pb.Key) :
  conformant pb1 -> conformant pb2 ->
  key_from_protobuf pb1 = key_from_protobuf pb2 ->
  datastore_pb.dataset_id (datastore_pb.partition_id pb1)
    = datastore_pb.dataset_id (datastore_pb.partition_id pb2) /\
  datastore_pb.namespace (datastore_pb.partition_id pb1)
    = datastore_pb.namespace (datastore_pb.partition_id pb2) /\
  datastore_pb.path_element pb1 = datastore_pb.path_element pb2.
Proof.
  intros [Ho1 Hl1] [Ho2 Hl2] H. rewrite !key_from_protobuf_eq in H.
  injection H as Hflat Hns Hds.
  apply (f_equal key.path) in Hflat.
  rewrite !path_of_elements in Hflat by assumption.
  apply map_segment_of_inj in Hflat; [|assumption..].
  repeat split; assumption.
Qed.

(** X7: two conformant wire keys that differ in the dataset id, in the
    namespace or in their path elements decode to different keys. *)
Theorem key_from_protobuf_injective (pb1 pb2 : datastore_pb.Key) :
  conformant pb1 -> conformant pb2 ->
  datastore_pb.dataset_id (datastore_pb.partition_id pb1)
    <> datastore_pb.dataset_id (datastore_pb.partition_id pb2) \/
  datastore_pb.namespace (datastore_pb.partition_id pb1)
    <> datastore_pb.namespace (datastore_pb.partition_id pb2) \/
  datastore_pb.path_element pb1 <> datastore_pb.path_element pb2 ->
  key_from_protobuf pb1 <> key_from_protobuf pb2.
Proof.
  intros H1 H2 Hdiff H.
  destruct (key_from_protobuf_fields pb1 pb2 H1 H2 H) as (Hds & Hns & Hp).
  destruct Hdiff as [Hd | [Hd | Hd]]; contradiction.
Qed.

Lemma key_from_protobuf_injective_witness :
  let pb1 := datastore_pb.mkKey (datastore_pb.mkPartitionId (Some "s~foo") None)
               [datastore_pb.mkPathElement "A" None (Some "B");
                datastore_pb.mkPathElement "C" None None] in
  let pb2 := datastore_pb.mkKey (datastore_pb.mkPartitionId (Some "s~foo") None)
               [datastore_pb.mkPathElement "A" None (Some "B");
                datastore_pb.mkPathElement "C" (Some 1) None] in
  key_from_protobuf pb1 <> key_from_protobuf pb2.
Proof.
  intros pb1 pb2. apply (key_from_protobuf_injective pb1 pb2).
  - split; [repeat constructor; left; reflexivity|].
    simpl. split; [discriminate | exact I].
  - split.
    + constructor; [left; reflexivity|].
      constructor; [right; reflexivity | constructor].
    + simpl. split; [discriminate | exact I].
  - right. right. simpl. discriminate.
Defined.

(** ** Decoding, continued *)

(** X8: a message whose timestamp field is populated decodes to the UTC
    timestamp that many microseconds after the epoch when that instant is
    a [datetime], and makes the decoder raise the overflow error when it
    is not, whatever else the message holds. *)
Theorem decode_timestamp_bounds (value_pb : datastore_pb.Value) (us : Z) :
  datastore_pb.timestamp_microseconds_value value_pb = Some us ->
  (datetime.MIN <= us <= datetime.MAX ->
   _get_value_from_value_pb value_pb
   = Ok (VDatetime (datetime.mkdatetime us (Some pytz_utc)))) /\
  (~ datetime.MIN <= us <= datetime.MAX ->
   _get_value_from_value_pb value_pb = Raise DateOutOfRange).
Proof.
  intros H. rewrite (decode_timestamp value_pb us H).
  destruct (datetime.in_range us) eqn:E.
  - apply in_range_valid in E. split; [reflexivity | contradiction].
  - split; [|reflexivity]. intros Hr. apply in_range_valid in Hr. congruence.
Qed.

Lemma decode_timestamp_bounds_witness :
  _get_value_from_value_pb
    (datastore_pb.set_timestamp_microseconds_value
       (datastore_pb.set_integer_value datastore_pb.Value_ 5) 1609459200000000)
  = Ok (VDatetime (datetime.mkdatetime 1609459200000000 (Some pytz_utc))) /\
  _get_value_from_value_pb
    (datastore_pb.set_timestamp_microseconds_value datastore_pb.Value_ (2 ^ 62))
  = Raise DateOutOfRange.
Proof.
  split.
  - apply (proj1 (decode_timestamp_bounds
                    (datastore_pb.set_timestamp_microseconds_value
                       (datastore_pb.set_integer_value datastore_pb.Value_ 5)
                       1609459200000000)
                    1609459200000000 eq_refl)).
    unfold datetime.MIN, datetime.MAX. lia.
  - apply (proj2 (decode_timestamp_bounds
                    (datastore_pb.set_timestamp_microseconds_value
                       datastore_pb.Value_ (2 ^ 62))
                    (2 ^ 62) eq_refl)).
    unfold datetime.MIN, datetime.MAX. lia.
Defined.

Lemma foldM_invariant {A S} (I : S -> Prop) (body : S -> A -> result S)
    (l : list A) (s s' : S) :
  (forall x s1 s2, In x l -> I s1 -> body s1 x = Ok s2 -> I s2) ->
  I s -> foldM body l s = Ok s' -> I s'.
Proof.
  revert s. induction l as [|x l IH]; intros s Hstep Hs H; simpl in H.
  - injection H as <-. exact Hs.
  - apply bind_Ok in H as (s1 & H1 & H).
    apply (IH s1); [|eapply Hstep; [left; reflexivity | exact Hs | exact H1]
                    | exact H].
    intros y t1 t2 Hy. apply Hstep. right. exact Hy.
Qed.

Lemma record_property_Ok (p : Property) (val : value)
    (props : list (string * value)) (excl : list string)
    (st : list (string * value) * list string) :
  record_property p val (props, excl) = Ok st ->
  fst st = dict_set props (datastore_pb.property_name p) val.
Proof.
  unfold record_property.
  destruct val;
    repeat match goal with
           | |- context [if ?c then _ else _] => destruct c
           end;
    intros [= <-]; reflexivity.
Qed.

Lemma property_step_Ok (p : Property)
    (st st' : list (string * value) * list string) :
  (val ← _get_value_from_property_pb p; record_property p val st) = Ok st' ->
  exists val,
    _get_value_from_property_pb p = Ok val /\
    fst st' = dict_set (fst st) (datastore_pb.property_name p) val.
Proof.
  intros H. apply bind_Ok in H as (val & Hval & H). exists val.
  split; [exact Hval|]. destruct st as [props excl].
  exact (record_property_Ok _ _ _ _ _ H).
Qed.

Lemma Forall_dict_set {V} (P : V -> Prop) (d : list (string * V))
    (k : string) (v : V) :
  Forall (fun item => P (snd item)) d -> P v ->
  Forall (fun item => P (snd item)) (dict_set d k v).
Proof.
  intros Hd Hv. induction Hd as [|[k' v'] d Hk' Hd IH]; simpl.
  - repeat constructor. exact Hv.
  - destruct (String.eqb k' k); constructor; assumption.
Qed.

Lemma decoded_shape_entity (k : option key.Key) (x : list string)
    (d : list (string * value)) :
  decoded_shape (VEntity (mkEntity k x d)) <->
  k <> None /\ Forall (fun item => decoded_shape (snd item)) d.
Proof.
  cbn [decoded_shape].
  assert ((fix all (d : list (string * value)) : Prop :=
             match d with
             | [] => True
             | item :: d' => decoded_shape (snd item) /\ all d'
             end) d <-> Forall (fun item => decoded_shape (snd item)) d) as ->.
  { induction d as [|item d IH]; [split; constructor|].
    rewrite IH. split; [intros [? ?]; constructor; assumption|].
    intros H; inversion H; subst; split; assumption. }
  reflexivity.
Qed.

Lemma decoded_shape_list (l : list value) :
  decoded_shape (VList l) <-> l <> [] /\ Forall decoded_shape l.
Proof.
  cbn [decoded_shape].
  assert ((fix all (l : list value) : Prop :=
             match l with
             | [] => True
             | x :: l' => decoded_shape x /\ all l'
             end) l <-> Forall decoded_shape l) as ->.
  { induction l as [|x l IH]; [split; constructor|].
    rewrite IH. split; [intros [? ?]; constructor; assumption|].
    intros H; inversion H; subst; split; assumption. }
  reflexivity.
Qed.

Lemma Forall2_results {A B} (f : A -> result B) (P : B -> Prop)
    (l : list A) (r : list B) :
  Forall2 (fun x y => f x = Ok y) l r ->
  Forall (fun x => forall y, f x = Ok y -> P y) l ->
  Forall P r.
Proof.
  induction 1 as [|x y l r Hxy _ IH]; intros Hl; constructor.
  - inversion Hl; subst. auto.
  - apply IH. inversion Hl; assumption.
Qed.

(** X9: in every value that the decoder returns, at any depth,
    timestamps are zoned as UTC and lie in the [datetime] range, every
    entity has a key and every list has an element. *)
Theorem decoded_values_shape (value_pb : datastore_pb.Value) (val : value) :
  _get_value_from_value_pb value_pb = Ok val -> decoded_shape val.
Proof.
  revert value_pb val.
  apply (Value_pb_ind
    (fun v => forall val, _get_value_from_value_pb v = Ok val ->
                          decoded_shape val)
    (fun pb => forall e, entity_from_protobuf pb = Ok e ->
                         decoded_shape (VEntity e))).
  - intros v IHe IHl val.
    destruct (datastore_pb.timestamp_microseconds_value v) as [us|] eqn:Et.
    { rewrite (decode_timestamp v us Et).
      destruct (datetime.in_range us) eqn:Er; [|discriminate].
      intros [= <-]. split; [reflexivity|]. apply in_range_valid. exact Er. }
    destruct v as [bv iv dv tv kv bk sv blv ev lv m ix]; simpl in *. subst tv.
    destruct kv; [intros [= <-]; exact I|].
    destruct bv; [intros [= <-]; exact I|].
    destruct dv; [intros [= <-]; exact I|].
    destruct iv; [intros [= <-]; exact I|].
    destruct sv; [intros [= <-]; exact I|].
    destruct blv; [intros [= <-]; exact I|].
    destruct ev as [e'|].
    { intros H. apply bind_Ok in H as (e & He & [= <-]).
      exact (IHe e' eq_refl e He). }
    destruct lv as [|x lv]; [intros [= <-]; exact I|].
    intros H. apply bind_Ok in H as (l & Hl & [= <-]).
    apply mapM_Ok in Hl. apply decoded_shape_list. split.
    + inversion Hl; discriminate.
    + exact (Forall2_results _ _ _ _ Hl IHl).
  - intros pb IH e. rewrite entity_from_protobuf_eq. intros H.
    apply bind_Ok in H as (st & Hst & [= <-]).
    apply decoded_shape_entity. split; [discriminate|].
    apply (foldM_invariant
             (fun st => Forall (fun item => decoded_shape (snd item)) (fst st))
             _ _ _ _) in Hst; [exact Hst | | constructor].
    intros p s1 s2 Hp Hs1 Hstep.
    apply property_step_Ok in Hstep as (val & Hval & ->).
    apply Forall_dict_set; [exact Hs1|].
    rewrite List.Forall_forall in IH.
    rewrite _get_value_from_property_pb_eq in Hval. exact (IH p Hp val Hval).
Qed.

Lemma decoded_values_shape_witness :
  decoded_shape
    (VList [VEntity (mkEntity (Some (key.mkKey [PStr "Kind"; PInt 1] None
                                       (Some "s~foo"))) [] []);
            VDatetime (datetime.mkdatetime 0 (Some pytz_utc))]).
Proof.
  apply (decoded_values_shape
           (datastore_pb.set_list_value datastore_pb.Value_
              [datastore_pb.set_entity_value datastore_pb.Value_
                 (datastore_pb.mkEntity
                    (Some (datastore_pb.mkKey
                             (datastore_pb.mkPartitionId (Some "s~foo") None)
                             [datastore_pb.mkPathElement "Kind" (Some 1) None]))
                    []);
               datastore_pb.set_timestamp_microseconds_value
                 datastore_pb.Value_ 0])).
  reflexivity.
Defined.

(** *** The property mapping of a decoded entity *)

Lemma dict_get_set {V} (d : list (string * V)) (k k' : string) (v : V) :
  dict_get (dict_set d k v) k'
  = if String.eqb k k' then Some v else dict_get d k'.
Proof.
  induction d as [|[k0 v0] d IH]; simpl.
  - destruct (String.eqb k k'); reflexivity.
  - destruct (String.eqb_spec k0 k) as [->|Hne]; simpl.
    + destruct (String.eqb k k'); reflexivity.
    + rewrite IH. destruct (String.eqb_spec k0 k') as [->|Hne'];
        [|reflexivity].
      destruct (String.eqb_spec k k') as [->|_]; [contradiction | reflexivity].
Qed.

Lemma dict_set_keys {V} (d : list (string * V)) (k : string) (v : V) :
  (In k (map fst d) /\ map fst (dict_set d k v) = map fst d) \/
  (~ In k (map fst d) /\ map fst (dict_set d k v) = map fst d ++ [k]).
Proof.
  induction d as [|[k0 v0] d IH]; simpl.
  - right. split; [intros []|reflexivity].
  - destruct (String.eqb_spec k0 k) as [->|Hne]; simpl.
    + left. split; [left; reflexivity | reflexivity].
    + destruct IH as [[Hin E] | [Hn E]]; rewrite E.
      * left. split; [right; exact Hin | reflexivity].
      * right. split; [|reflexivity]. intros [H|H]; contradiction.
Qed.

Lemma dict_set_NoDup {V} (d : list (string * V)) (k : string) (v : V) :
  List.NoDup (map fst d) -> List.NoDup (map fst (dict_set d k v)).
Proof.
  intros Hd. destruct (dict_set_keys d k v) as [[_ E] | [Hn E]]; rewrite E.
  - exact Hd.
  - clear E. induction (map fst d) as [|x l IH]; simpl.
    + constructor; [intros [] | constructor].
    + inversion Hd; subst. constructor.
      * rewrite in_app_iff. simpl. intros [H | [H | []]]; [contradiction|].
        subst x. apply Hn. left. reflexivity.
      * apply IH; [assumption|]. intros H. apply Hn. right. exact H.
Qed.

Lemma dict_set_In_key {V} (d : list (string * V)) (k : string) (v : V)
    (n : string) :
  In n (map fst (dict_set d k v)) <-> In n (map fst d) \/ n = k.
Proof.
  destruct (dict_set_keys d k v) as [[Hin E] | [_ E]]; rewrite E.
  - split; [left; assumption|]. intros [H | ->]; assumption.
  - rewrite in_app_iff. simpl. intuition.
Qed.

(** The loop of [entity_from_protobuf], as far as the mapping goes. *)
Lemma property_loop_items (properties : list Property)
    (st st' : list (string * value) * list string) :
  foldM (fun st property_pb =>
           val ← _get_value_from_property_pb property_pb;
           record_property property_pb val st)
        properties st = Ok st' ->
  exists vals,
    Forall2 (fun p val => _get_value_from_property_pb p = Ok val)
      properties vals /\
    fst st'
    = fold_left (fun d pv => dict_set d (datastore_pb.property_name (fst pv))
                               (snd pv))
        (combine properties vals) (fst st).
Proof.
  revert st. induction properties as [|p properties IH]; intros st H;
    simpl in H.
  - injection H as <-. exists []. split; [constructor | reflexivity].
  - apply bind_Ok in H as (st1 & H1 & H).
    apply property_step_Ok in H1 as (val & Hval & E1).
    destruct (IH st1 H) as (vals & Hvals & E).
    exists (val :: vals). split; [constructor; assumption|].
    simpl. rewrite <- E1. exact E.
Qed.

Lemma fold_dict_set_keys (pvs : list (Property * value))
    (d : list (string * value)) :
  List.NoDup (map fst d) ->
  List.NoDup
    (map fst
       (fold_left (fun d pv => dict_set d (datastore_pb.property_name (fst pv))
                                 (snd pv)) pvs d)) /\
  forall n,
    In n (map fst
            (fold_left (fun d pv => dict_set d
                                      (datastore_pb.property_name (fst pv))
                                      (snd pv)) pvs d)) <->
    In n (map fst d) \/
    In n (map (fun pv => datastore_pb.property_name (fst pv)) pvs).
Proof.
  revert d. induction pvs as [|[p v] pvs IH]; intros d Hd; simpl.
  - split; [exact Hd | intuition].
  - destruct (IH (dict_set d (datastore_pb.property_name p) v)
                (dict_set_NoDup _ _ _ Hd)) as [Hnd Hin].
    split; [exact Hnd|]. intros n. rewrite Hin, dict_set_In_key.
    intuition.
Qed.

Lemma fold_dict_set_get (pvs : list (Property * value))
    (d : list (string * value)) (n : string) :
  (forall pv, In pv pvs -> datastore_pb.property_name (fst pv) <> n) ->
  dict_get
    (fold_left (fun d pv => dict_set d (datastore_pb.property_name (fst pv))
                              (snd pv)) pvs d) n
  = dict_get d n.
Proof.
  revert d. induction pvs as [|[p v] pvs IH]; intros d Hn; simpl;
    [reflexivity|].
  rewrite IH by (intros pv Hpv; apply Hn; right; exact Hpv).
  rewrite dict_get_set.
  destruct (String.eqb_spec (datastore_pb.property_name p) n) as [E|_];
    [|reflexivity].
  exfalso. exact (Hn (p, v) (or_introl eq_refl) E).
Qed.

Lemma combine_fst_names (properties : list Property) (vals : list value) :
  length properties = length vals ->
  map (fun pv : Property * value => datastore_pb.property_name (fst pv))
    (combine properties vals)
  = map datastore_pb.property_name properties.
Proof.
  revert vals. induction properties as [|p properties IH]; intros [|v vals] H;
    try discriminate; [reflexivity|].
  simpl. f_equal. apply IH. simpl in H. lia.
Qed.

Lemma combine_app_eq {A B} (l1 l2 : list A) (r1 r2 : list B) :
  length l1 = length r1 ->
  combine (l1 ++ l2) (r1 ++ r2) = combine l1 r1 ++ combine l2 r2.
Proof.
  revert r1. induction l1 as [|x l1 IH]; intros [|y r1] H; try discriminate;
    [reflexivity|].
  simpl. f_equal. apply IH. simpl in H. lia.
Qed.

Lemma Forall2_length_eq {A B} (R : A -> B -> Prop) (l : list A) (r : list B) :
  Forall2 R l r -> length l = length r.
Proof. induction 1; simpl; congruence. Qed.

(** X11: the property mapping of a decoded entity has pairwise distinct
    names, and they are exactly the names of the wire properties. *)
Theorem decoded_entity_names (pb : datastore_pb.Entity) (e : Entity) :
  entity_from_protobuf pb = Ok e ->
  List.NoDup (map fst (items e)) /\
  forall n, In n (map fst (items e)) <->
            In n (map datastore_pb.property_name (datastore_pb.property pb)).
Proof.
  rewrite entity_from_protobuf_eq. intros H.
  apply bind_Ok in H as (st & Hst & [= <-]). cbn [items].
  apply property_loop_items in Hst as (vals & Hvals & ->). cbn [fst].
  destruct (fold_dict_set_keys (combine (datastore_pb.property pb) vals) [])
    as [Hnd Hin]; [constructor|].
  split; [exact Hnd|]. intros n. rewrite Hin.
  rewrite combine_fst_names by (eapply Forall2_length_eq; exact Hvals).
  simpl. intuition.
Qed.

Lemma decoded_entity_names_witness :
  let pb := datastore_pb.mkEntity
              (Some (datastore_pb.mkKey
                       (datastore_pb.mkPartitionId (Some "s~foo") None)
                       [datastore_pb.mkPathElement "Kind" (Some 1) None]))
              [datastore_pb.mkProperty "a"
                 (datastore_pb.set_integer_value datastore_pb.Value_ 1);
               datastore_pb.mkProperty "b"
                 (datastore_pb.set_integer_value datastore_pb.Value_ 2);
               datastore_pb.mkProperty "a"
                 (datastore_pb.set_integer_value datastore_pb.Value_ 3)] in
  List.NoDup (map fst [("a", VInt 3); ("b", VInt 2)]) /\
  forall n, In n (map fst [("a", VInt 3); ("b", VInt 2)]) <->
            In n (map datastore_pb.property_name (datastore_pb.property pb)).
Proof.
  intros pb.
  apply (decoded_entity_names pb
           (mkEntity (Some (key.mkKey [PStr "Kind"; PInt 1] None (Some "s~foo"))) []
              [("a", VInt 3); ("b", VInt 2)])).
  reflexivity.
Defined.

(** X12: when several wire properties have the same name, the decoded
    mapping holds under that name the value of the last of them. *)
Theorem decoded_entity_last_wins (pb : datastore_pb.Entity) (e : Entity)
    (before after : list Property) (p : Property) :
  entity_from_protobuf pb = Ok e ->
  datastore_pb.property pb = before ++ p :: after ->
  (forall q, In q after ->
             datastore_pb.property_name q <> datastore_pb.property_name p) ->
  exists val,
    _get_value_from_property_pb p = Ok val /\
    dict_get (items e) (datastore_pb.property_name p) = Some val.
Proof.
  rewrite entity_from_protobuf_eq. intros H Hsplit Hafter.
  apply bind_Ok in H as (st & Hst & [= <-]). cbn [items].
  apply property_loop_items in Hst as (vals & Hvals & ->). cbn [fst].
  rewrite Hsplit in Hvals |- *.
  apply List.Forall2_app_inv_l in Hvals as (vb & va & Hb & Ha & ->).
  inversion Ha as [|? val ? va' Hval Ha']; subst.
  exists val. split; [exact Hval|].
  rewrite combine_app_eq by (eapply Forall2_length_eq; exact Hb).
  rewrite fold_left_app. cbn [combine fold_left fst snd].
  rewrite fold_dict_set_get.
  - rewrite dict_get_set, String.eqb_refl. reflexivity.
  - intros [q v] Hq. apply in_combine_l in Hq. apply Hafter, Hq.
Qed.

Lemma decoded_entity_last_wins_witness :
  let pb := datastore_pb.mkEntity
              (Some (datastore_pb.mkKey
                       (datastore_pb.mkPartitionId (Some "s~foo") None)
                       [datastore_pb.mkPathElement "Kind" (Some 1) None]))
              [datastore_pb.mkProperty "a"
                 (datastore_pb.set_integer_value datastore_pb.Value_ 1);
               datastore_pb.mkProperty "b"
                 (datastore_pb.set_integer_value datastore_pb.Value_ 2);
               datastore_pb.mkProperty "a"
                 (datastore_pb.set_integer_value datastore_pb.Value_ 3)] in
  exists val,
    _get_value_from_property_pb
      (datastore_pb.mkProperty "a"
         (datastore_pb.set_integer_value datastore_pb.Value_ 3)) = Ok val /\
    dict_get [("a", VInt 3); ("b", VInt 2)] "a" = Some val.
Proof.
  intros pb.
  apply (decoded_entity_last_wins pb
           (mkEntity (Some (key.mkKey [PStr "Kind"; PInt 1] None (Some "s~foo"))) []
              [("a", VInt 3); ("b", VInt 2)])
           [datastore_pb.mkProperty "a"
              (datastore_pb.set_integer_value datastore_pb.Value_ 1);
            datastore_pb.mkProperty "b"
              (datastore_pb.set_integer_value datastore_pb.Value_ 2)]
           []).
  - reflexivity.
  - reflexivity.
  - intros q [].
Defined.

Lemma fold_dict_set_fresh (pvs : list (Property * value))
    (d : list (string * value)) :
  List.NoDup
    (map fst d ++ map (fun pv => datastore_pb.property_name (fst pv)) pvs) ->
  fold_left (fun d pv => dict_set d (datastore_pb.property_name (fst pv))
                           (snd pv)) pvs d
  = d ++ map (fun pv => (datastore_pb.property_name (fst pv), snd pv)) pvs.
Proof.
  revert d. induction pvs as [|[p v] pvs IH]; intros d Hnd; simpl.
  - rewrite app_nil_r. reflexivity.
  - simpl in Hnd. rewrite dict_set_fresh.
    + rewrite IH.
      * rewrite <- app_assoc. reflexivity.
      * rewrite map_app, <- app_assoc. exact Hnd.
    + apply List.NoDup_remove_2 in Hnd. intros Hin. apply Hnd.
      apply in_or_app. left. exact Hin.
Qed.

(** X13: when the wire properties have pairwise distinct names, the
    decoded mapping lists them in wire order, each name with the decoded
    value of its property. *)
Theorem decoded_entity_in_order (pb : datastore_pb.Entity) (e : Entity) :
  entity_from_protobuf pb = Ok e ->
  List.NoDup (map datastore_pb.property_name (datastore_pb.property pb)) ->
  Forall2
    (fun p item =>
       fst item = datastore_pb.property_name p /\
       _get_value_from_property_pb p = Ok (snd item))
    (datastore_pb.property pb) (items e).
Proof.
  rewrite entity_from_protobuf_eq. intros H Hnd.
  apply bind_Ok in H as (st & Hst & [= <-]). cbn [items].
  apply property_loop_items in Hst as (vals & Hvals & ->). cbn [fst].
  rewrite fold_dict_set_fresh.
  - simpl. clear Hnd.
    induction Hvals as [|p val ps vals Hp _ IH]; simpl; constructor;
      [split; [reflexivity | exact Hp] | exact IH].
  - simpl. rewrite combine_fst_names by (eapply Forall2_length_eq; exact Hvals).
    exact Hnd.
Qed.

Lemma decoded_entity_in_order_witness :
  let pb := datastore_pb.mkEntity
              (Some (datastore_pb.mkKey
                       (datastore_pb.mkPartitionId (Some "s~foo") None)
                       [datastore_pb.mkPathElement "Kind" (Some 1) None]))
              [datastore_pb.mkProperty "b"
                 (datastore_pb.set_integer_value datastore_pb.Value_ 2);
               datastore_pb.mkProperty "a"
                 (datastore_pb.set_string_value datastore_pb.Value_ "x")] in
  Forall2
    (fun p item =>
       fst item = datastore_pb.property_name p /\
       _get_value_from_property_pb p = Ok (snd item))
    (datastore_pb.property pb) [("b", VInt 2); ("a", VText "x")].
Proof.
  intros pb.
  apply (decoded_entity_in_order pb
           (mkEntity (Some (key.mkKey [PStr "Kind"; PInt 1] None (Some "s~foo"))) []
              [("b", VInt 2); ("a", VText "x")])).
  - reflexivity.
  - repeat constructor; simpl; intuition discriminate.
Defined.

(** ** Encoding, continued *)

Lemma encode_datetime (dt : datetime.datetime) :
  _pb_attr_value (VDatetime dt)
  = if datetime.in_range (utc_reading dt)
    then Ok (timestamp_microseconds_value (utc_reading dt))
    else Raise DateOutOfRange.
Proof.
  destruct dt as [w [z|]].
  - cbn [_pb_attr_value datetime.tz]. unfold datetime.astimezone, utc_reading.
    cbn [datetime.tz datetime.wall datetime.utcoffset pytz_utc].
    rewrite Z.add_0_r.
    destruct (datetime.in_range (w - datetime.utcoffset z)); [|reflexivity].
    cbn [mbind result_bind].
    unfold datetime.timegm_timetuple, datetime.microsecond.
    cbn [datetime.wall]. f_equal. f_equal.
    pose proof (Z.div_mod (w - datetime.utcoffset z) 1000000). lia.
  - exact (encode_utc_datetime w).
Qed.

(** X14: the payload under which a timestamp is encoded is the UTC
    reading of its instant; it lies between the readings of
    [datetime.min] and [datetime.max] and so fits the signed 64-bit
    field. *)
Theorem timestamp_payload_bounds (dt : datetime.datetime) (us : Z) :
  _pb_attr_value (VDatetime dt) = Ok (timestamp_microseconds_value us) ->
  us = utc_reading dt /\ datetime.MIN <= us <= datetime.MAX /\ int64 us.
Proof.
  rewrite encode_datetime.
  destruct (datetime.in_range (utc_reading dt)) eqn:E; [|discriminate].
  intros [= <-]. apply in_range_valid in E. split; [reflexivity|].
  split; [exact E|]. unfold int64, datetime.MIN, datetime.MAX in *. lia.
Qed.

Lemma timestamp_payload_bounds_witness :
  3600000000 = utc_reading (datetime.mkdatetime 0 (Some (datetime.mktz (-3600000000)))) /\
  datetime.MIN <= 3600000000 <= datetime.MAX /\ int64 3600000000.
Proof.
  apply (timestamp_payload_bounds
           (datetime.mkdatetime 0 (Some (datetime.mktz (-3600000000))))
           3600000000).
  reflexivity.
Defined.

(** X15: a timestamp of any zone comes back from encoding and decoding as
    the same instant zoned as UTC, provided that instant read in UTC is a
    [datetime]; otherwise the encoder raises the overflow error. *)
Theorem roundtrip_datetime (dt : datetime.datetime) :
  (datetime.MIN <= utc_reading dt <= datetime.MAX ->
   roundtrip (VDatetime dt)
   = Ok (VDatetime (datetime.mkdatetime (utc_reading dt) (Some pytz_utc)))) /\
  (~ datetime.MIN <= utc_reading dt <= datetime.MAX ->
   roundtrip (VDatetime dt) = Raise DateOutOfRange).
Proof.
  unfold roundtrip. cbn [_set_protobuf_value]. rewrite encode_datetime.
  destruct (datetime.in_range (utc_reading dt)) eqn:E.
  - split; [|intros Hn; apply in_range_valid in E; contradiction].
    intros _. cbn [mbind result_bind setattr].
    rewrite (decode_timestamp _ (utc_reading dt)) by reflexivity.
    rewrite E. reflexivity.
  - split; [|reflexivity]. intros Hr. apply in_range_valid in Hr. congruence.
Qed.

Lemma roundtrip_datetime_witness :
  roundtrip (VDatetime (datetime.of_fields 2021 1 1 1 0 0 0
                          (Some (datetime.mktz 3600000000))))
  = Ok (VDatetime (datetime.of_fields 2021 1 1 0 0 0 0 (Some pytz_utc))) /\
  roundtrip (VDatetime (datetime.of_fields 1 1 1 0 0 0 0
                          (Some (datetime.mktz 3600000000))))
  = Raise DateOutOfRange.
Proof.
  split.
  - apply (proj1 (roundtrip_datetime
                    (datetime.of_fields 2021 1 1 1 0 0 0
                       (Some (datetime.mktz 3600000000))))).
    split; vm_compute; discriminate.
  - apply (proj2 (roundtrip_datetime
                    (datetime.of_fields 1 1 1 0 0 0 0
                       (Some (datetime.mktz 3600000000))))).
    intros [H _]. vm_compute in H. apply H. reflexivity.
Defined.

Lemma encode_frame (value_pb : datastore_pb.Value) (val : value)
    (pb : datastore_pb.Value) :
  val <> VNone ->
  _set_protobuf_value value_pb val = Ok pb ->
  datastore_pb.meaning pb = datastore_pb.meaning value_pb /\
  datastore_pb.indexed pb = datastore_pb.indexed value_pb /\
  datastore_pb.blob_key_value pb = datastore_pb.blob_key_value value_pb /\
  (datastore_pb.timestamp_microseconds_value pb
     = datastore_pb.timestamp_microseconds_value value_pb \/
   exists dt, val = VDatetime dt).
Proof.
  intros Hn.
  destruct val as [| b | i | d | dt | k | s | b | e | l |]; simpl; intros H;
    try (unfold set_entity_value_with in H);
    try (unfold set_list_value_with in H);
    inv_bind; subst; try congruence; try discriminate;
    repeat split; try (left; reflexivity).
  right. eexists. reflexivity.
Qed.

(** X16: setting a value other than [None] leaves the [meaning], the
    [indexed] flag and the [blob_key_value] of the message as they
    were. *)
Theorem set_protobuf_value_frame (value_pb : datastore_pb.Value) (val : value)
    (pb : datastore_pb.Value) :
  val <> VNone ->
  _set_protobuf_value value_pb val = Ok pb ->
  datastore_pb.meaning pb = datastore_pb.meaning value_pb /\
  datastore_pb.indexed pb = datastore_pb.indexed value_pb /\
  datastore_pb.blob_key_value pb = datastore_pb.blob_key_value value_pb.
Proof.
  intros Hn H. destruct (encode_frame value_pb val pb Hn H) as (? & ? & ? & _).
  repeat split; assumption.
Qed.

Lemma set_protobuf_value_frame_witness :
  let value_pb := datastore_pb.set_indexed datastore_pb.Value_ false in
  let pb := datastore_pb.set_string_value value_pb "x" in
  datastore_pb.meaning pb = datastore_pb.meaning value_pb /\
  datastore_pb.indexed pb = datastore_pb.indexed value_pb /\
  datastore_pb.blob_key_value pb = datastore_pb.blob_key_value value_pb.
Proof.
  intros value_pb pb.
  apply (set_protobuf_value_frame value_pb (VText "x") pb).
  - discriminate.
  - reflexivity.
Defined.

(** X17: the encoder does not reset the message it writes to.  When the
    message already holds a timestamp and a value that is neither [None]
    nor a timestamp is set, the message still decodes as before. *)
Theorem set_protobuf_value_keeps_timestamp
    (value_pb : datastore_pb.Value) (us : Z) (val : value)
    (pb : datastore_pb.Value) :
  datastore_pb.timestamp_microseconds_value value_pb = Some us ->
  val <> VNone -> (forall dt, val <> VDatetime dt) ->
  _set_protobuf_value value_pb val = Ok pb ->
  _get_value_from_value_pb pb = _get_value_from_value_pb value_pb.
Proof.
  intros Hus Hn Hd H.
  destruct (encode_frame value_pb val pb Hn H) as (_ & _ & _ & [E | (dt & ->)]).
  - rewrite (decode_timestamp value_pb us Hus).
    apply decode_timestamp. rewrite E. exact Hus.
  - exfalso. exact (Hd dt eq_refl).
Qed.

Lemma set_protobuf_value_keeps_timestamp_witness :
  let value_pb :=
    datastore_pb.set_timestamp_microseconds_value datastore_pb.Value_ 0 in
  _get_value_from_value_pb (datastore_pb.set_integer_value value_pb 7)
  = _get_value_from_value_pb value_pb.
Proof.
  intros value_pb.
  apply (set_protobuf_value_keeps_timestamp value_pb 0 (VInt 7)).
  - reflexivity.
  - discriminate.
  - discriminate.
  - reflexivity.
Defined.

Lemma mapM_app {A B} (f : A -> result B) (l1 l2 : list A) :
  mapM f (l1 ++ l2)
  = (r1 ← mapM f l1; r2 ← mapM f l2; Ok (r1 ++ r2)).
Proof.
  induction l1 as [|x l1 IH]; simpl.
  - destruct (mapM f l2); reflexivity.
  - destruct (f x) as [y|e]; [|reflexivity]. simpl.
    fold (mapM f (l1 ++ l2)). fold (mapM f l1). rewrite IH.
    destruct (mapM f l1) as [r1|e]; [|reflexivity]. simpl.
    destruct (mapM f l2); reflexivity.
Qed.

(** X18: setting a list appends to the elements the message already
    holds, so that setting one list and then another is the same as
    setting their concatenation, also in the exception raised. *)
Theorem set_protobuf_value_list_twice
    (value_pb : datastore_pb.Value) (l1 l2 : list value) :
  (pb ← _set_protobuf_value value_pb (VList l1);
   _set_protobuf_value pb (VList l2))
  = _set_protobuf_value value_pb (VList (l1 ++ l2)).
Proof.
  cbn [_set_protobuf_value]. unfold set_list_value_with.
  rewrite mapM_app.
  destruct (mapM _ l1) as [r1|e]; [|reflexivity]. cbn [mbind result_bind].
  cbn [datastore_pb.list_value datastore_pb.set_list_value].
  destruct (mapM _ l2) as [r2|e]; [|reflexivity]. cbn [mbind result_bind].
  rewrite app_assoc. destruct value_pb; reflexivity.
Qed.

(** *** Which values the encoder accepts *)

Lemma all_Forall {A} (P : A -> Prop) (l : list A) :
  (fix all (l : list A) : Prop :=
     match l with
     | [] => True
     | x :: l' => P x /\ all l'
     end) l <-> Forall P l.
Proof.
  induction l as [|x l IH]; [split; constructor|].
  rewrite IH. split; [intros [? ?]; constructor; assumption|].
  intros H; inversion H; subst; split; assumption.
Qed.

Lemma encodable_entity (k : option key.Key) (x : list string)
    (d : list (string * value)) :
  encodable (VEntity (mkEntity k x d)) <->
  (forall k', k = Some k' -> key.well_formed k') /\
  Forall (fun item => encodable (snd item)) d.
Proof.
  cbn [encodable].
  rewrite (all_Forall (fun item : string * value => encodable (snd item)) d).
  reflexivity.
Qed.

Lemma encodable_list (l : list value) :
  encodable (VList l) <-> Forall encodable l.
Proof. cbn [encodable]. apply (all_Forall encodable l). Qed.

Lemma to_protobuf_Ok (k : key.Key) :
  (exists pb, key.to_protobuf k = Ok pb) <-> key.well_formed k.
Proof.
  split.
  - intros (pb & H). unfold key.to_protobuf in H.
    apply bind_Ok in H as (elems & Hm & _). apply mapM_Ok in Hm.
    unfold key.well_formed.
    induction Hm as [|seg el segs els Hseg _ IH]; constructor; [|exact IH].
    destruct seg as [[s|i] o]; [exact I | discriminate].
  - intros H. destruct (key_roundtrip k H) as (pb & Hpb & _).
    exists pb. exact Hpb.
Qed.

Lemma classic_int64 (i : Z) : int64 i \/ ~ int64 i.
Proof. unfold int64. lia. Qed.

Lemma mapM_succeeds {A B} (f : A -> result B) (l : list A) :
  (exists r, mapM f l = Ok r) <-> Forall (fun x => exists y, f x = Ok y) l.
Proof.
  induction l as [|x l IH]; simpl.
  - split; [constructor | exists []; reflexivity].
  - split.
    + intros (r & H). apply bind_Ok in H as (y & Hy & H).
      apply bind_Ok in H as (ys & Hys & _).
      constructor; [exists y; exact Hy | apply IH; exists ys; exact Hys].
    + intros H. inversion H as [|? ? (y & Hy) Hl]; subst.
      apply IH in Hl as (ys & Hys). exists (y :: ys).
      rewrite Hy. simpl. fold (mapM f l). rewrite Hys. reflexivity.
Qed.

Lemma Forall_iff_in {A} (P Q : A -> Prop) (l : list A) :
  Forall (fun x => P x <-> Q x) l -> (Forall P l <-> Forall Q l).
Proof.
  induction 1 as [|x l Hx _ IH]; [split; constructor|].
  split; intros H; inversion H; subst; constructor;
    try (apply Hx; assumption); apply IH; assumption.
Qed.

(** Success of the encoder in terms of [encodable], the keys being
    converted by [key.to_protobuf]. *)
Lemma encode_succeeds_iff (value_pb : datastore_pb.Value)
    (val : value) :
  (exists pb, _set_protobuf_value value_pb val = Ok pb) <-> encodable val.
Proof.
  revert value_pb.
  induction val as [| b | i | d | dt | k | s | b | k x d IH | l IH |]
    using value_ind; intros value_pb.
  - split; [intros _; exact I | intros _; eexists; reflexivity].
  - split; [intros _; exact I | intros _; eexists; reflexivity].
  - cbn [_set_protobuf_value _pb_attr_value encodable].
    destruct (INT_VALUE_CHECKER_spec i) as [Hin Hout]. split.
    + intros (pb & H). destruct (classic_int64 i) as [Hi|Hi]; [exact Hi|].
      rewrite (Hout Hi) in H. discriminate.
    + intros Hi. rewrite (Hin Hi). eexists. reflexivity.
  - split; [intros _; exact I | intros _; eexists; reflexivity].
  - cbn [_set_protobuf_value encodable]. rewrite encode_datetime.
    rewrite <- in_range_valid.
    destruct (datetime.in_range (utc_reading dt)); split;
      try (intros _; eexists; reflexivity); try reflexivity;
      try discriminate.
    intros (pb & H). discriminate.
  - cbn [_set_protobuf_value _pb_attr_value encodable].
    rewrite <- to_protobuf_Ok. split.
    + intros (pb & H). destruct (key.to_protobuf k) as [kpb|]; [|discriminate].
      eexists. reflexivity.
    + intros (kpb & ->). eexists. reflexivity.
  - split; [intros _; exact I | intros _; eexists; reflexivity].
  - split; [intros _; exact I | intros _; eexists; reflexivity].
  - rewrite encodable_entity. cbn [_set_protobuf_value].
    unfold set_entity_value_with. cbn [entity_key items].
    assert (Forall (fun item : string * value =>
                      (exists p,
                         (p_value ← _set_protobuf_value datastore_pb.Value_
                                      (snd item);
                          Ok (datastore_pb.mkProperty (fst item) p_value))
                         = Ok p)
                      <-> encodable (snd item)) d) as Hd.
    { eapply List.Forall_impl; [|exact IH]. intros item Hitem. cbn beta.
      rewrite <- (Hitem datastore_pb.Value_). split.
      - intros (p & H). apply bind_Ok in H as (pv & Hpv & _).
        exists pv. exact Hpv.
      - intros (pv & ->). eexists. reflexivity. }
    apply Forall_iff_in in Hd. rewrite <- Hd, <- mapM_succeeds. split.
    + intros (pb & H). apply bind_Ok in H as (ko & Hk & H).
      apply bind_Ok in H as (props & Hprops & _). split.
      * intros k' ->. apply to_protobuf_Ok.
        destruct (key.to_protobuf k') as [kpb|]; [|discriminate].
        eexists. reflexivity.
      * exists props. exact Hprops.
    + intros (Hk & props & Hprops). rewrite Hprops.
      destruct k as [k'|].
      * destruct (proj2 (to_protobuf_Ok k') (Hk k' eq_refl)) as (kpb & ->).
        eexists. reflexivity.
      * eexists. reflexivity.
  - rewrite encodable_list. cbn [_set_protobuf_value].
    unfold set_list_value_with.
    assert (Forall (fun item =>
                      (exists x, _set_protobuf_value datastore_pb.Value_ item
                                 = Ok x) <-> encodable item) l) as Hl.
    { eapply List.Forall_impl; [|exact IH]. intros item Hitem. apply Hitem. }
    apply Forall_iff_in in Hl. rewrite <- Hl, <- mapM_succeeds. split.
    + intros (pb & H). apply bind_Ok in H as (added & Hadded & _).
      exists added. exact Hadded.
    + intros (added & Hadded). eexists. apply bind_Ok.
      exists added. split; [exact Hadded | reflexivity].
  - cbn. split; [intros (pb & H); discriminate | intros []].
Qed.

Lemma leaves_encodable_entity (k : option key.Key) (x : list string)
    (d : list (string * value)) :
  leaves_encodable (VEntity (mkEntity k x d)) <->
  Forall (fun item => leaves_encodable (snd item)) d.
Proof.
  cbn [leaves_encodable].
  apply (all_Forall (fun item : string * value => leaves_encodable (snd item)) d).
Qed.

Lemma leaves_encodable_list (l : list value) :
  leaves_encodable (VList l) <-> Forall leaves_encodable l.
Proof. cbn [leaves_encodable]. apply (all_Forall leaves_encodable l). Qed.

Lemma key_free_entity (k : option key.Key) (x : list string)
    (d : list (string * value)) :
  key_free (VEntity (mkEntity k x d)) <->
  k = None /\ Forall (fun item => key_free (snd item)) d.
Proof.
  cbn [key_free].
  rewrite (all_Forall (fun item : string * value => key_free (snd item)) d).
  reflexivity.
Qed.

Lemma key_free_list (l : list value) :
  key_free (VList l) <-> Forall key_free l.
Proof. cbn [key_free]. apply (all_Forall key_free l). Qed.

Lemma encodable_leaves (v : value) : encodable v -> leaves_encodable v.
Proof.
  induction v as [| b | i | d | dt | k | s | b | k x d IH | l IH |]
    using value_ind; intros H; try exact H; try exact I.
  - apply encodable_entity in H as [_ H]. apply leaves_encodable_entity.
    rewrite List.Forall_forall in IH, H |- *. auto.
  - apply encodable_list in H. apply leaves_encodable_list.
    rewrite List.Forall_forall in IH, H |- *. auto.
Qed.

Lemma leaves_encodable_key_free (v : value) :
  key_free v -> leaves_encodable v -> encodable v.
Proof.
  induction v as [| b | i | d | dt | k | s | b | k x d IH | l IH |]
    using value_ind; intros Hk H; try exact H; try exact I.
  - destruct Hk.
  - apply key_free_entity in Hk as [-> Hk].
    apply leaves_encodable_entity in H. apply encodable_entity.
    split; [intros k' [=]|].
    rewrite List.Forall_forall in IH, H, Hk |- *. auto.
  - apply key_free_list in Hk. apply leaves_encodable_list in H.
    apply encodable_list.
    rewrite List.Forall_forall in IH, H, Hk |- *. auto.
Qed.

(** X19: when setting a value succeeds, every integer in the value lies
    in the signed 64-bit range, every timestamp read in UTC is a
    [datetime] and no object of a foreign type occurs in it, at any depth
    of lists and entities; and for a value in which no key occurs these
    conditions are enough for the setting to succeed, whatever the
    message written to. *)
Theorem set_protobuf_value_succeeds (value_pb : datastore_pb.Value)
    (val : value) :
  ((exists pb, _set_protobuf_value value_pb val = Ok pb) ->
   leaves_encodable val) /\
  (key_free val -> leaves_encodable val ->
   exists pb, _set_protobuf_value value_pb val = Ok pb).
Proof.
  split.
  - intros H. apply encodable_leaves.
    apply (encode_succeeds_iff value_pb val). exact H.
  - intros Hk H. apply (encode_succeeds_iff value_pb val).
    apply leaves_encodable_key_free; assumption.
Qed.

Lemma set_protobuf_value_succeeds_witness :
  leaves_encodable (VList [VInt 1; VKey (key.mkKey [PStr "Kind"; PInt 1] None None)]) /\
  exists pb,
    _set_protobuf_value datastore_pb.Value_
      (VList [VInt 1; VList []; VEntity (mkEntity None ["a"] [("a", VNone)])])
    = Ok pb.
Proof.
  split.
  - apply (proj1 (set_protobuf_value_succeeds datastore_pb.Value_ _)).
    eexists. reflexivity.
  - apply (proj2 (set_protobuf_value_succeeds datastore_pb.Value_ _)).
    + cbn. repeat split.
    + cbn. unfold int64. repeat split; lia.
Defined.

(** *** What comes back from a round trip *)

Lemma distinct_names_entity (k : option key.Key) (x : list string)
    (d : list (string * value)) :
  distinct_names (VEntity (mkEntity k x d)) <->
  List.NoDup (map fst d) /\ Forall (fun item => distinct_names (snd item)) d.
Proof.
  cbn [distinct_names].
  rewrite (all_Forall (fun item : string * value => distinct_names (snd item)) d).
  reflexivity.
Qed.

Lemma distinct_names_list (l : list value) :
  distinct_names (VList l) <-> Forall distinct_names l.
Proof. cbn [distinct_names]. apply (all_Forall distinct_names l). Qed.

Lemma encoded_value_flags (p : Property) (val dec : value) :
  _set_protobuf_value datastore_pb.Value_ val = Ok (datastore_pb.value p) ->
  _get_value_from_value_pb (datastore_pb.value p) = Ok dec ->
  property_indexed p = true /\
  same_flag (datastore_pb.list_value (datastore_pb.value p)).
Proof.
  intros Henc Hdec.
  destruct (encode_fresh_indexed_unset _ _ Henc) as [Hi Hl]. split.
  - unfold property_indexed. rewrite _get_value_from_property_pb_eq, Hdec.
    assert (datastore_pb.get_indexed (datastore_pb.value p) = true) as Hp.
    { unfold datastore_pb.get_indexed. rewrite Hi. reflexivity. }
    destruct dec; try exact Hp.
    destruct (datastore_pb.list_value (datastore_pb.value p)) as [|x lv];
      [reflexivity|].
    inversion Hl as [|? ? Hx _]; subst.
    unfold datastore_pb.get_indexed. rewrite Hx. reflexivity.
  - exists true. eapply List.Forall_impl; [|exact Hl].
    intros x Hx. unfold datastore_pb.get_indexed. rewrite Hx. reflexivity.
Qed.

Lemma property_loop_normalized (d : list (string * value))
    (properties : list Property) (acc : list (string * value)) :
  Forall2 encodes_normalized d properties ->
  List.NoDup (map fst acc ++ map fst d) ->
  foldM (fun st property_pb =>
           val ← _get_value_from_property_pb property_pb;
           record_property property_pb val st)
        properties (acc, [])
  = Ok (acc ++ map (fun item : string * value =>
                      (fst item, normalize (snd item))) d, []).
Proof.
  intros H. revert acc.
  induction H as [|item p d properties Hp _ IH]; intros acc Hnd.
  - simpl. rewrite app_nil_r. reflexivity.
  - cbn [foldM]. pose proof Hp as (Hname & Henc & Hdec).
    rewrite _get_value_from_property_pb_eq, Hdec. cbn [mbind result_bind].
    destruct (encoded_value_flags p _ _ Henc Hdec) as [Hpi Hsf].
    destruct (record_property_spec p (normalize (snd item)) acc []
                ltac:(rewrite _get_value_from_property_pb_eq; exact Hdec))
      as [(_ & Hns & _) | (_ & Hr)]; [contradiction|].
    rewrite Hr. cbn [mbind result_bind List.filter].
    rewrite Hpi. cbn [negb map app].
    cbn [map] in Hnd. rewrite Hname, dict_set_fresh.
    + rewrite IH.
      * cbn [map]. rewrite <- app_assoc. reflexivity.
      * rewrite map_app, <- app_assoc. exact Hnd.
    + apply List.NoDup_remove_2 in Hnd.
      intros Hin. apply Hnd. apply in_or_app. left. exact Hin.
Qed.

Lemma keys_storable_entity (k : option key.Key) (x : list string)
    (d : list (string * value)) :
  keys_storable (VEntity (mkEntity k x d)) <->
  (exists k', k = Some k' /\ key_storable k') /\
  Forall (fun item => keys_storable (snd item)) d.
Proof.
  cbn [keys_storable].
  rewrite (all_Forall (fun item : string * value => keys_storable (snd item)) d).
  reflexivity.
Qed.

Lemma keys_storable_list (l : list value) :
  keys_storable (VList l) <-> Forall keys_storable l.
Proof. cbn [keys_storable]. apply (all_Forall keys_storable l). Qed.

Lemma encode_decode_normalize (v : value) :
  encodable v -> distinct_names v -> keys_storable v ->
  exists pb, _set_protobuf_value datastore_pb.Value_ v = Ok pb /\
             _get_value_from_value_pb pb = Ok (normalize v).
Proof.
  induction v as [| b | i | d | dt | k | s | b | k x d IH | l IH |]
    using value_ind; intros He Hd Hs.
  - eexists. split; reflexivity.
  - eexists. split; reflexivity.
  - cbn [encodable] in He. cbn [_set_protobuf_value _pb_attr_value].
    rewrite (proj1 (INT_VALUE_CHECKER_spec i) He).
    eexists. split; reflexivity.
  - eexists. split; reflexivity.
  - cbn [encodable] in He. apply in_range_valid in He.
    cbn [_set_protobuf_value]. rewrite encode_datetime, He.
    eexists. split; [reflexivity|].
    rewrite (decode_timestamp _ (utc_reading dt)) by reflexivity.
    rewrite He. reflexivity.
  - cbn [encodable] in He. destruct (key_roundtrip k He) as (pb & Hto & Hfrom).
    cbn [_set_protobuf_value _pb_attr_value]. rewrite Hto.
    eexists. split; [reflexivity|]. cbn. rewrite Hfrom. reflexivity.
  - eexists. split; reflexivity.
  - eexists. split; reflexivity.
  - apply encodable_entity in He as (Hk & He).
    apply distinct_names_entity in Hd as (Hnd & Hd).
    apply keys_storable_entity in Hs as ((k' & -> & _) & Hs).
    destruct (key_roundtrip k' (Hk k' eq_refl)) as (kpb & Hto & Hfrom).
    assert (Forall (fun item : string * value =>
                      exists pv,
                        _set_protobuf_value datastore_pb.Value_ (snd item)
                        = Ok pv /\
                        _get_value_from_value_pb pv
                        = Ok (normalize (snd item))) d) as Hitems.
    { rewrite List.Forall_forall in IH, He, Hd, Hs |- *.
      intros item Hin. apply IH; auto. }
    assert (exists props, Forall2 encodes_normalized d props) as (props & Henc).
    { clear -Hitems.
      induction Hitems as [|item d (pv & H1 & H2) _ (props & IHp)].
      - exists []. constructor.
      - exists (datastore_pb.mkProperty (fst item) pv :: props).
        constructor; [|exact IHp]. repeat split; assumption. }
    assert (mapM (fun item : string * value =>
                    p_value ← _set_protobuf_value datastore_pb.Value_ (snd item);
                    Ok (datastore_pb.mkProperty (fst item) p_value)) d
            = Ok props) as Hm.
    { apply mapM_Ok. clear -Henc.
      induction Henc as [|item p d props (Hn & Hen & _) _ IHp]; constructor;
        [|exact IHp].
      rewrite Hen. destruct p. cbn in *. rewrite Hn. reflexivity. }
    cbn [_set_protobuf_value]. unfold set_entity_value_with.
    cbn [entity_key items]. rewrite Hto. cbn [mbind result_bind].
    rewrite Hm. cbn [mbind result_bind].
    eexists. split; [reflexivity|].
    cbn [_get_value_from_value_pb datastore_pb.set_entity_value
         datastore_pb.timestamp_microseconds_value datastore_pb.key_value
         datastore_pb.boolean_value datastore_pb.double_value
         datastore_pb.integer_value datastore_pb.string_value
         datastore_pb.blob_value datastore_pb.entity_value datastore_pb.Value_].
    fold entity_from_protobuf.
    rewrite entity_from_protobuf_eq.
    cbn [datastore_pb.property datastore_pb.Entity_ app].
    rewrite (property_loop_normalized d props [] Henc Hnd).
    unfold datastore_pb.get_key.
    cbn [datastore_pb.key mbind result_bind fst snd app].
    change (default datastore_pb.Key_ (Some kpb)) with kpb.
    rewrite Hfrom. reflexivity.
  - apply encodable_list in He. apply distinct_names_list in Hd.
    apply keys_storable_list in Hs.
    assert (Forall (fun x =>
                      exists pv,
                        _set_protobuf_value datastore_pb.Value_ x = Ok pv /\
                        _get_value_from_value_pb pv = Ok (normalize x)) l)
      as Hitems.
    { rewrite List.Forall_forall in IH, He, Hd, Hs |- *.
      intros item Hin. apply IH; auto. }
    assert (exists added,
              mapM (fun item => _set_protobuf_value datastore_pb.Value_ item) l
              = Ok added /\
              mapM _get_value_from_value_pb added = Ok (map normalize l) /\
              length added = length l) as (added & Hm & Hm' & Hlen).
    { clear -Hitems.
      induction Hitems as [|x l (pv & H1 & H2) _ (added & IH1 & IH2 & IH3)].
      - exists []. repeat split.
      - exists (pv :: added). cbn [mapM map length].
        rewrite H1, H2. cbn [mbind result_bind].
        fold (mapM (fun item => _set_protobuf_value datastore_pb.Value_ item) l).
        fold (mapM _get_value_from_value_pb added).
        rewrite IH1, IH2, IH3. repeat split. }
    cbn [_set_protobuf_value]. unfold set_list_value_with.
    rewrite Hm. cbn [mbind result_bind].
    eexists. split; [reflexivity|].
    rewrite decode_no_tag by (unfold no_tag_set; cbn; repeat split).
    cbn [datastore_pb.list_value datastore_pb.set_list_value
         datastore_pb.Value_ app].
    destruct l as [|x l]; destruct added as [|y added]; try discriminate.
    + reflexivity.
    + rewrite Hm'. reflexivity.
  - destruct He.
Qed.

(** X20: every value that the encoder accepts, in which every entity
    carries a key and every key has a path argument, string kinds and
    numeric ids of the signed 64-bit range, comes back from encoding into
    a fresh message and decoding in a definite form: the same value except
    that timestamps are read in UTC, no entity excludes a name from
    indexes and every empty list has become [None]. *)
Theorem roundtrip_normalizes (v : value) :
  encodable v -> distinct_names v -> keys_storable v ->
  roundtrip v = Ok (normalize v).
Proof.
  intros He Hd Hs.
  destruct (encode_decode_normalize v He Hd Hs) as (pb & Henc & Hdec).
  unfold roundtrip. rewrite Henc. exact Hdec.
Qed.

Lemma roundtrip_normalizes_witness :
  let k := key.mkKey [PStr "Kind"; PInt 1] None (Some "s~foo") in
  roundtrip
    (VEntity
       (mkEntity (Some k) ["tags"]
          [("tags", VList [VList []; VInt 1]);
           ("when", VDatetime (datetime.mkdatetime 0 None));
           ("none", VList [])]))
  = Ok (VEntity
          (mkEntity (Some k) []
             [("tags", VList [VNone; VInt 1]);
              ("when", VDatetime (datetime.mkdatetime 0 (Some pytz_utc)));
              ("none", VNone)])).
Proof.
  intros k.
  assert (key_storable k) as Hk.
  { split; [discriminate|]. split; repeat constructor; unfold int64; lia. }
  apply (roundtrip_normalizes
           (VEntity
              (mkEntity (Some k) ["tags"]
                 [("tags", VList [VList []; VInt 1]);
                  ("when", VDatetime (datetime.mkdatetime 0 None));
                  ("none", VList [])]))).
  - apply encodable_entity. split.
    + intros k' [= <-]. apply Hk.
    + repeat constructor; cbn; unfold int64, datetime.MIN, datetime.MAX;
        repeat split; lia.
  - apply distinct_names_entity. split.
    + repeat constructor; cbn; intuition discriminate.
    + repeat constructor; cbn; auto.
  - apply keys_storable_entity. split.
    + exists k. split; [reflexivity | exact Hk].
    + repeat constructor; cbn; auto.
Defined.
